(** * SPSC_Queue: a shallow embedding of [SPSCQueue] and [SPSCQueueOPT]

    The two C++ class templates ([src/SPSCQueue.h] and the flag-based
    [SPSCQueueOPT]) are embedded as explicit state passing over a record
    of their fields.  [uint32_t] fields are [Z] values in [0, 2^32) with
    their wrap-around written out ([u32]); the [std::array] members are
    stdpp lists updated by index.  A pointer returned by [alloc]/[front]
    is modelled as the array index it points into.

    The wrappers [tryPush], [tryPop] and [blockPush] have the same text in
    both classes; they are written once over a record [queue_ops] of the
    four primitive operations and the slot accessors.  Callbacks are
    modelled as functions from the old slot contents to the new ones, and
    every callback invocation and every publish/release is logged as an
    [event]. *)

From Stdlib Require Import ZArith Lia.
From stdpp Require Import base list.

Open Scope Z_scope.

(** ** 32-bit arithmetic and the capacity check *)

(** Reduction to [uint32_t]. *)
Definition u32 (x : Z) : Z := x mod 2 ^ 32.

(** [static_assert(CNT && !(CNT & (CNT - 1)), ...)] for a [uint32_t CNT]. *)
Definition valid_cnt (CNT : Z) : bool :=
  (0 <? CNT) && (CNT <? 2 ^ 32) && (Z.land CNT (CNT - 1) =? 0).

(** ** Events and the common interface *)

Inductive event (T : Type) : Type :=
  | EvWriter (p : Z) (x : T)   (** [writer(p)] ran; the slot now holds [x] *)
  | EvPush                     (** [push()] *)
  | EvReader (p : Z) (x : T)   (** [reader(p)] ran on a slot holding [x] *)
  | EvPop.                     (** [pop()] *)
Arguments EvWriter {T} p x.
Arguments EvPush {T}.
Arguments EvReader {T} p x.
Arguments EvPop {T}.

(** The member functions both classes provide. *)
Record queue_ops (T Q : Type) : Type := {
  op_alloc : Q -> option Z * Q;
  op_push : Q -> Q;
  op_front : Q -> option Z;
  op_pop : Q -> Q;
  op_get : Q -> Z -> T;          (** [*p] *)
  op_set : Q -> Z -> T -> Q      (** [*p = x] *)
}.
Arguments op_alloc {T Q} _ _.
Arguments op_push {T Q} _ _.
Arguments op_front {T Q} _ _.
Arguments op_pop {T Q} _ _.
Arguments op_get {T Q} _ _ _.
Arguments op_set {T Q} _ _ _ _.

Section Wrappers.
  Context {T Q : Type} (ops : queue_ops T Q).

  (** [T* p = alloc(); if (!p) return false; writer(p); push(); return true;] *)
Definition tryPush (writer : T -> T) (s : Q) : bool * Q * list (event T) :=
    match op_alloc ops s with
    | (None, s1) => (false, s1, [])
    | (Some p, s1) =>
        let x := writer (op_get ops s1 p) in
        (true, op_push ops (op_set ops s1 p x), [EvWriter p x; EvPush])
    end.

  (** [T* v = front(); if (!v) return false; reader(v); pop(); return true;] *)
Definition tryPop (reader : T -> T) (s : Q) : bool * Q * list (event T) :=
    match op_front ops s with
    | None => (false, s, [])
    | Some p =>
        let x := op_get ops s p in
        (true, op_pop ops (op_set ops s p (reader x)), [EvReader p x; EvPop])
    end.

  (** [while (!tryPush(writer)) ;], run for at most [fuel] iterations.
      [Some (n, s', tr)]: the loop left after [n] calls of [tryPush];
      [None]: it was still spinning when the fuel ran out. *)
Fixpoint blockPush (fuel : nat) (writer : T -> T) (s : Q)
      : option (nat * Q * list (event T)) :=
    match fuel with
    | O => None
    | S f =>
        match tryPush writer s with
        | (true, s', tr) => Some (1%nat, s', tr)
        | (false, s', tr) =>
            match blockPush f writer s' with
            | Some (n, s'', tr') => Some (S n, s'', tr ++ tr')
            | None => None
            end
        end
    end.

  (** Whole-operation interleavings of the producer and the consumer. *)
Inductive op : Type :=
    | OpPush (writer : T -> T)
    | OpPop (reader : T -> T).

Fixpoint run (os : list op) (s : Q) : Q * list (event T) :=
    match os with
    | [] => (s, [])
    | OpPush w :: os' =>
        let '(_, s1, tr1) := tryPush w s in
        let '(s2, tr2) := run os' s1 in (s2, tr1 ++ tr2)
    | OpPop r :: os' =>
        let '(_, s1, tr1) := tryPop r s in
        let '(s2, tr2) := run os' s1 in (s2, tr1 ++ tr2)
    end.

  (** Consecutive [tryPush] calls with the given writers; their results. *)
Fixpoint pushes (ws : list (T -> T)) (s : Q) : list bool * Q :=
    match ws with
    | [] => ([], s)
    | w :: ws' =>
        let '(b, s1, _) := tryPush w s in
        let '(bs, s2) := pushes ws' s1 in (b :: bs, s2)
    end.

  (** Values written by the writer callbacks and seen by the reader callbacks. *)
Fixpoint written (tr : list (event T)) : list T :=
    match tr with
    | [] => []
    | EvWriter _ x :: tr' => x :: written tr'
    | _ :: tr' => written tr'
    end.

Fixpoint read_vals (tr : list (event T)) : list T :=
    match tr with
    | [] => []
    | EvReader _ x :: tr' => x :: read_vals tr'
    | _ :: tr' => read_vals tr'
    end.

  (** Primitive-operation interleavings: the producer holds the pointer
      returned by its last [alloc], the consumer the one returned by its
      last [front]; [push] needs a held producer pointer and [pop] a held
      consumer pointer (the usage contract of the classes). *)
Record sys : Type := mksys { sq : Q; prod_ptr : option Z; cons_ptr : option Z }.

Inductive prim : Type :=
    | PAlloc
    | PWrite (writer : T -> T)
    | PPush
    | PFront
    | PRead (reader : T -> T)
    | PPop.

Definition step (c : prim) (st : sys) : option sys :=
    let '(mksys s pp cp) := st in
    match c with
    | PAlloc => let '(p, s1) := op_alloc ops s in Some (mksys s1 p cp)
    | PWrite w =>
        match pp with
        | Some p => Some (mksys (op_set ops s p (w (op_get ops s p))) pp cp)
        | None => None
        end
    | PPush =>
        match pp with
        | Some _ => Some (mksys (op_push ops s) None cp)
        | None => None
        end
    | PFront => Some (mksys s pp (op_front ops s))
    | PRead r =>
        match cp with
        | Some p => Some (mksys (op_set ops s p (r (op_get ops s p))) pp cp)
        | None => None
        end
    | PPop =>
        match cp with
        | Some _ => Some (mksys (op_pop ops s) pp None)
        | None => None
        end
    end.

Fixpoint exec (cs : list prim) (st : sys) : option sys :=
    match cs with
    | [] => Some st
    | c :: cs' => match step c st with Some st' => exec cs' st' | None => None end
    end.

Fixpoint count_push (cs : list prim) : Z :=
    match cs with
    | [] => 0
    | PPush :: cs' => 1 + count_push cs'
    | _ :: cs' => count_push cs'
    end.
Fixpoint count_pop (cs : list prim) : Z :=
    match cs with
    | [] => 0
    | PPop :: cs' => 1 + count_pop cs'
    | _ :: cs' => count_pop cs'
    end.
End Wrappers.

Arguments sys Q : clear implicits.
Arguments op T : clear implicits.
Arguments prim T : clear implicits.
Arguments OpPush {T} writer.
Arguments OpPop {T} reader.
Arguments PAlloc {T}.
Arguments PWrite {T} writer.
Arguments PPush {T}.
Arguments PFront {T}.
Arguments PRead {T} reader.
Arguments PPop {T}.

(** ** Contracts of the wrappers *)
Section Contracts.
  Context {T Q : Type} (ops : queue_ops T Q).

  (** [tryPush]/[tryPop]: false exactly when [alloc]/[front] gave null, with
      no callback; otherwise one callback on the returned slot, then
      [push]/[pop]. *)
Definition try_contract (writer reader : T -> T) (s : Q) : Prop :=
    (fst (fst (tryPush ops writer s)) = false <-> fst (op_alloc ops s) = None) /\
    (forall s1, op_alloc ops s = (None, s1) -> tryPush ops writer s = (false, s1, [])) /\
    (forall p s1, op_alloc ops s = (Some p, s1) ->
       tryPush ops writer s =
         (true, op_push ops (op_set ops s1 p (writer (op_get ops s1 p))),
          [EvWriter p (writer (op_get ops s1 p)); EvPush])) /\
    (fst (fst (tryPop ops reader s)) = false <-> op_front ops s = None) /\
    (op_front ops s = None -> tryPop ops reader s = (false, s, [])) /\
    (forall p, op_front ops s = Some p ->
       tryPop ops reader s =
         (true, op_pop ops (op_set ops s p (reader (op_get ops s p))),
          [EvReader p (op_get ops s p); EvPop])).

  (** [blockPush]: a failed [tryPush] is followed by another iteration of
      the loop on the state it left; from a state where [alloc] returns a
      slot the loop ends after one [tryPush], one writer call, one [push]. *)
Definition blockPush_contract (fuel : nat) (writer : T -> T) (s : Q) : Prop :=
    (forall s1 tr, tryPush ops writer s = (false, s1, tr) ->
       blockPush ops (S fuel) writer s =
         match blockPush ops fuel writer s1 with
         | Some (n, s', tr') => Some (S n, s', tr ++ tr')
         | None => None
         end) /\
    (forall p s1, op_alloc ops s = (Some p, s1) ->
       blockPush ops (S fuel) writer s =
         Some (1%nat, op_push ops (op_set ops s1 p (writer (op_get ops s1 p))),
               [EvWriter p (writer (op_get ops s1 p)); EvPush])).
End Contracts.

(** ** [SPSCQueue]: index-based queue ([src/SPSCQueue.h]) *)
Module SPSCQueue.
Section Defs.
  Context {T : Type} `{Inhabited T}.
  Variable CNT : Z.

  (** [data], [write_idx], [read_idx_cach] (producer only), [read_idx]. *)
Record t : Type := mk {
    data : list T;
    write_idx : Z;
    read_idx_cach : Z;
    read_idx : Z
  }.

Definition MASK : Z := CNT - 1.

  (** Default-initialised members: [data] holds [CNT] default values. *)
Definition init : t := mk (replicate (Z.to_nat CNT) inhabitant) 0 0 0.

Definition alloc (s : t) : option Z * t :=
    if u32 (write_idx s - read_idx_cach s) =? CNT then
      (* read_idx_cach = read_idx.load(consume) *)
      let s1 := mk (data s) (write_idx s) (read_idx s) (read_idx s) in
      if u32 (write_idx s1 - read_idx_cach s1) =? CNT then (None, s1)
      else (Some (Z.land (write_idx s1) MASK), s1)
    else (Some (Z.land (write_idx s) MASK), s).

  (** [write_idx.store(write_idx + 1, release)] *)
Definition push (s : t) : t :=
    mk (data s) (u32 (write_idx s + 1)) (read_idx_cach s) (read_idx s).

Definition front (s : t) : option Z :=
    if read_idx s =? write_idx s then None
    else Some (Z.land (read_idx s) MASK).

  (** [read_idx.store(read_idx + 1, release)] *)
Definition pop (s : t) : t :=
    mk (data s) (write_idx s) (read_idx_cach s) (u32 (read_idx s + 1)).

Definition get (s : t) (p : Z) : T := data s !!! Z.to_nat p.

Definition set (s : t) (p : Z) (x : T) : t :=
    mk (<[Z.to_nat p := x]> (data s)) (write_idx s) (read_idx_cach s) (read_idx s).

Definition ops : queue_ops T t :=
    {| op_alloc := alloc; op_push := push; op_front := front; op_pop := pop;
       op_get := get; op_set := set |}.
End Defs.
Arguments t T : clear implicits.
End SPSCQueue.

(** ** [SPSCQueueOPT]: flag-based queue *)
Module SPSCQueueOPT.
Section Defs.
  Context {T : Type} `{Inhabited T}.
  Variable CNT : Z.

Record Block : Type := mkBlock { avail : bool; data : T }.

#[global] Instance Block_inhabited : Inhabited Block :=
    populate (mkBlock false inhabitant).

  (** [blk], [write_idx] and [free_write_cnt] (producer only), [read_idx]. *)
Record t : Type := mk {
    blk : list Block;
    write_idx : Z;
    free_write_cnt : Z;
    read_idx : Z
  }.

Definition MASK : Z := CNT - 1.

  (** [avail = false] in every block, [free_write_cnt = CNT - 1]. *)
Definition init : t :=
    mk (replicate (Z.to_nat CNT) (mkBlock false inhabitant)) 0 (u32 (CNT - 1)) 0.

Definition alloc (s : t) : option Z * t :=
    if free_write_cnt s =? 0 then
      let rd_idx := read_idx s in
      let f := Z.land (u32 (rd_idx - write_idx s + CNT - 1)) MASK in
      let s1 := mk (blk s) (write_idx s) f (read_idx s) in
      if free_write_cnt s1 =? 0 then (None, s1) else (Some (write_idx s1), s1)
    else (Some (write_idx s), s).

Definition set_avail (b : bool) (i : Z) (l : list Block) : list Block :=
    alter (fun bk => mkBlock b (data bk)) (Z.to_nat i) l.

  (** [blk[write_idx].avail.store(true, release); write_idx = (write_idx + 1) & MASK;
      free_write_cnt--;] *)
Definition push (s : t) : t :=
    mk (set_avail true (write_idx s) (blk s))
       (Z.land (u32 (write_idx s + 1)) MASK)
       (u32 (free_write_cnt s - 1))
       (read_idx s).

Definition front (s : t) : option Z :=
    if avail (blk s !!! Z.to_nat (read_idx s)) then Some (read_idx s) else None.

  (** [blk[read_idx].avail = false; read_idx.store((read_idx + 1) & MASK, release);] *)
Definition pop (s : t) : t :=
    mk (set_avail false (read_idx s) (blk s))
       (write_idx s) (free_write_cnt s)
       (Z.land (u32 (read_idx s + 1)) MASK).

Definition get (s : t) (p : Z) : T := data (blk s !!! Z.to_nat p).

Definition set (s : t) (p : Z) (x : T) : t :=
    mk (alter (fun bk => mkBlock (avail bk) x) (Z.to_nat p) (blk s))
       (write_idx s) (free_write_cnt s) (read_idx s).

Definition ops : queue_ops T t :=
    {| op_alloc := alloc; op_push := push; op_front := front; op_pop := pop;
       op_get := get; op_set := set |}.
End Defs.
Arguments Block T : clear implicits.
Arguments t T : clear implicits.
End SPSCQueueOPT.

Definition put {T} (v : T) : T -> T := fun _ => v.
Definition take {T} : T -> T := fun x => x.

(** Concrete inputs used by the examples below. *)
Definition demo_ops : list (op nat) :=
  [OpPush (put 1%nat); OpPush (put 2%nat); OpPop take; OpPush (put 3%nat);
   OpPop take; OpPop take; OpPop take; OpPush (put 4%nat)].

Definition demo_writers3 : list (nat -> nat) := [put 1%nat; put 2%nat; put 3%nat].
Definition demo_writers4 : list (nat -> nat) := [put 1%nat; put 2%nat; put 3%nat; put 4%nat].

Definition demo_prims : list (prim nat) :=
  [PAlloc; PWrite (put 7%nat); PPush; PAlloc; PWrite (put 8%nat); PPush;
   PFront; PRead take; PPop].

Definition demo_index_sys : sys (SPSCQueue.t nat) :=
  mksys (SPSCQueue.mk [7%nat; 8%nat; 0%nat; 0%nat] 2 0 1) None None.

Definition demo_flag_sys : sys (SPSCQueueOPT.t nat) :=
  mksys (SPSCQueueOPT.mk [SPSCQueueOPT.mkBlock false 7%nat; SPSCQueueOPT.mkBlock true 8%nat;
                          SPSCQueueOPT.mkBlock false 0%nat; SPSCQueueOPT.mkBlock false 0%nat]
                         2 1 1) None None.

(** A [SPSCQueueOPT] of capacity 4 whose consumer is at the last block. *)
Definition demo_wrap_state : SPSCQueueOPT.t nat :=
  SPSCQueueOPT.mk [SPSCQueueOPT.mkBlock false 0%nat; SPSCQueueOPT.mkBlock false 0%nat;
                   SPSCQueueOPT.mkBlock false 0%nat; SPSCQueueOPT.mkBlock true 9%nat]
                  0 2 3.

(** Both threads hold a slot: the producer its second [alloc], the consumer
    its [front] on the first element. *)
Definition demo_both_prims : list (prim nat) :=
  [PAlloc; PWrite (put 7%nat); PPush; PFront; PAlloc].

Definition demo_both_index_sys : sys (SPSCQueue.t nat) :=
  mksys (SPSCQueue.mk [7%nat; 0%nat; 0%nat; 0%nat] 1 0 0) (Some 1) (Some 0).

Definition demo_both_flag_sys : sys (SPSCQueueOPT.t nat) :=
  mksys (SPSCQueueOPT.mk [SPSCQueueOPT.mkBlock true 7%nat; SPSCQueueOPT.mkBlock false 0%nat;
                          SPSCQueueOPT.mkBlock false 0%nat; SPSCQueueOPT.mkBlock false 0%nat]
                         1 2 0) (Some 1) (Some 0).

(** Three pushes fill a [SPSCQueueOPT] of capacity 4 ([free_write_cnt = 0]);
    one pop follows. *)
Definition demo_refresh_prims : list (prim nat) :=
  [PAlloc; PWrite (put 1%nat); PPush; PAlloc; PWrite (put 2%nat); PPush;
   PAlloc; PWrite (put 3%nat); PPush; PFront; PRead take; PPop].

Definition demo_refresh_sys : sys (SPSCQueueOPT.t nat) :=
  mksys (SPSCQueueOPT.mk [SPSCQueueOPT.mkBlock false 1%nat; SPSCQueueOPT.mkBlock true 2%nat;
                          SPSCQueueOPT.mkBlock true 3%nat; SPSCQueueOPT.mkBlock false 0%nat]
                         3 0 1) None None.

(** Four [tryPush] calls and no consumer. *)
Definition demo_fill_ops : list (op nat) :=
  [OpPush (put 1%nat); OpPush (put 2%nat); OpPush (put 3%nat); OpPush (put 4%nat)].

(** An empty [SPSCQueue] of capacity 4 whose 32-bit counters are one step
    below the wrap-around. *)
Definition demo_top_data : list nat := [0%nat; 0%nat; 0%nat; 0%nat].

(** ** Abstraction invariants

    [index_inv CNT s q] and [flag_inv CNT s q] relate a queue state to the
    abstract FIFO list [q] of published, not yet released values.  The
    ghost counters [W], [R] (and [C] for the cached read index) are the
    unbounded numbers of pushes, pops and the pop count last seen by the
    producer; the fields hold them reduced to 32 bits or masked. *)
Section Invariants.
  Context {T : Type} `{Inhabited T}.
  Variable CNT : Z.

Definition index_inv (s : SPSCQueue.t T) (q : list T) : Prop :=
    exists W R C : Z,
      SPSCQueue.write_idx s = u32 W /\ SPSCQueue.read_idx s = u32 R /\
      SPSCQueue.read_idx_cach s = u32 C /\
      C <= R <= W /\ W <= C + CNT /\ Z.of_nat (length q) = W - R /\
      length (SPSCQueue.data s) = Z.to_nat CNT /\
      (forall i x, q !! i = Some x ->
         SPSCQueue.data s !! Z.to_nat ((R + Z.of_nat i) mod CNT) = Some x).

Definition flag_inv (s : SPSCQueueOPT.t T) (q : list T) : Prop :=
    exists W R : Z,
      SPSCQueueOPT.write_idx s = W mod CNT /\ SPSCQueueOPT.read_idx s = R mod CNT /\
      R <= W /\ Z.of_nat (length q) = W - R /\
      0 <= SPSCQueueOPT.free_write_cnt s /\
      SPSCQueueOPT.free_write_cnt s + (W - R) <= CNT - 1 /\
      length (SPSCQueueOPT.blk s) = Z.to_nat CNT /\
      (forall i : nat, Z.of_nat i < CNT ->
         exists b, SPSCQueueOPT.blk s !! Z.to_nat ((R + Z.of_nat i) mod CNT) = Some b /\
           match q !! i with
           | Some x => SPSCQueueOPT.avail b = true /\ SPSCQueueOPT.data b = x
           | None => SPSCQueueOPT.avail b = false
           end).

  (** Counting invariant of [SPSCQueue] under primitive interleavings:
      [pushed] and [popped] count the [push()] and [pop()] calls so far. *)
Definition index_sys_inv (st : sys (SPSCQueue.t T)) (pushed popped : Z) : Prop :=
    exists W R C : Z,
      SPSCQueue.write_idx (sq st) = u32 W /\ SPSCQueue.read_idx (sq st) = u32 R /\
      SPSCQueue.read_idx_cach (sq st) = u32 C /\
      C <= R <= W /\ W <= C + CNT /\ W - R = pushed - popped /\
      (prod_ptr st <> None -> W - C < CNT) /\
      (cons_ptr st <> None -> R < W).
  (** Index ranges of [SPSCQueueOPT] and the size of its block array. *)
Definition flag_bounds (s : SPSCQueueOPT.t T) : Prop :=
    0 <= SPSCQueueOPT.write_idx s < CNT /\ 0 <= SPSCQueueOPT.read_idx s < CNT /\
    length (SPSCQueueOPT.blk s) = Z.to_nat CNT.

  (** Slot ownership of [SPSCQueue] under primitive interleavings: a pointer
      held by the producer is the slot of [write_idx], one held by the
      consumer the slot of [read_idx]. *)
Definition index_excl_inv (st : sys (SPSCQueue.t T)) : Prop :=
    exists W R C : Z,
      SPSCQueue.write_idx (sq st) = u32 W /\ SPSCQueue.read_idx (sq st) = u32 R /\
      SPSCQueue.read_idx_cach (sq st) = u32 C /\
      C <= R <= W /\ W <= C + CNT /\
      (forall p, prod_ptr st = Some p -> p = W mod CNT /\ W - C < CNT) /\
      (forall c, cons_ptr st = Some c -> c = R mod CNT /\ R < W).

  (** Counting, flag and slot-ownership invariant of [SPSCQueueOPT] under
      primitive interleavings: the block [i] places after [read_idx] has its
      [avail] flag set exactly when [i] is below the number of elements. *)
Definition flag_sys_inv (st : sys (SPSCQueueOPT.t T)) (pushed popped : Z) : Prop :=
    exists W R : Z,
      SPSCQueueOPT.write_idx (sq st) = W mod CNT /\ SPSCQueueOPT.read_idx (sq st) = R mod CNT /\
      0 <= W - R /\ W - R = pushed - popped /\
      0 <= SPSCQueueOPT.free_write_cnt (sq st) /\
      SPSCQueueOPT.free_write_cnt (sq st) + (W - R) <= CNT - 1 /\
      length (SPSCQueueOPT.blk (sq st)) = Z.to_nat CNT /\
      (forall i : nat, Z.of_nat i < CNT ->
         exists b, SPSCQueueOPT.blk (sq st) !! Z.to_nat ((R + Z.of_nat i) mod CNT) = Some b /\
           SPSCQueueOPT.avail b = (Z.of_nat i <? W - R)) /\
      (forall p, prod_ptr st = Some p ->
         p = W mod CNT /\ 0 < SPSCQueueOPT.free_write_cnt (sq st)) /\
      (forall c, cons_ptr st = Some c -> c = R mod CNT /\ R < W).

End Invariants.

(** ** Claims taken literally, where the code departs from them *)
Section ClaimsAsStated.
  Context {T : Type} `{Inhabited T}.

  (** C5 (as stated): on every reachable state in which the consumer holds
      a successful [front], [pop] stores [read_idx + 1] into [read_idx]. *)
Definition C5_claim (CNT : Z) : Prop :=
    forall (cs : list (prim T)) (st : sys (SPSCQueueOPT.t T)),
      exec (SPSCQueueOPT.ops CNT) cs (mksys (SPSCQueueOPT.init CNT) None None) = Some st ->
      cons_ptr st <> None ->
      SPSCQueueOPT.read_idx (SPSCQueueOPT.pop CNT (sq st)) = SPSCQueueOPT.read_idx (sq st) + 1.
End ClaimsAsStated.

Example scenario_A :
  let ops := SPSCQueue.ops (T := nat) 4 in
  let s0 := SPSCQueue.init (T := nat) 4 in
  let '(s, tr) := run ops [OpPush (put 1%nat); OpPush (put 2%nat); OpPush (put 3%nat); OpPush (put 4%nat);
                          OpPush (put 5%nat); OpPop take; OpPush (put 6%nat);
                          OpPop take; OpPop take; OpPop take] s0 in
  (written tr, read_vals tr) = ([1;2;3;4;6], [1;2;3;4])%nat.
Proof. vm_compute. reflexivity. Qed.

Example scenario_B :
  let ops := SPSCQueueOPT.ops (T := nat) 4 in
  let s0 := SPSCQueueOPT.init (T := nat) 4 in
  let '(s, tr) := run ops [OpPush (put 1%nat); OpPush (put 2%nat); OpPush (put 3%nat); OpPush (put 4%nat);
                          OpPop take; OpPush (put 5%nat); OpPush (put 6%nat)] s0 in
  (written tr, read_vals tr) = ([1;2;3;5], [1])%nat.
Proof. vm_compute. reflexivity. Qed.

(** ** Arithmetic of a valid capacity *)
Section Capacity.
  Variable CNT : Z.
  Hypothesis Hv : valid_cnt CNT = true.

Lemma valid_cnt_bounds : 0 < CNT < 2 ^ 32 /\ Z.land CNT (CNT - 1) = 0.
  Proof.
    unfold valid_cnt in Hv. rewrite !andb_true_iff, !Z.ltb_lt, Z.eqb_eq in Hv. tauto.
  Qed.

Lemma valid_cnt_pow2 : exists k, 0 <= k <= 31 /\ CNT = 2 ^ k.
  Proof.
    destruct valid_cnt_bounds as [[H0 H1] Hand].
    pose proof (Z.log2_spec CNT H0) as [Hl Hu].
    pose proof (Z.log2_nonneg CNT) as Hk0.
    set (k := Z.log2 CNT) in *.
    assert (Hk : k <= 31).
    { destruct (Z.le_gt_cases k 31) as [?|Hgt]; [assumption|].
      assert (2 ^ 32 <= 2 ^ k) by (apply Z.pow_le_mono_r; lia). lia. }
    exists k. split; [lia|].
    destruct (Z.eq_dec CNT (2 ^ k)) as [E|NE]; [exact E|exfalso].
    assert (Hsucc : 2 ^ Z.succ k = 2 * 2 ^ k) by (rewrite Z.pow_succ_r; lia).
    assert (Hlog : Z.log2 (CNT - 1) = k) by (apply Z.log2_unique; lia).
    assert (Hb : Z.testbit (Z.land CNT (CNT - 1)) k = true).
    { rewrite Z.land_spec. rewrite <- Hlog at 2.
      rewrite (Z.bit_log2 (CNT - 1)) by lia. subst k. rewrite Z.bit_log2 by lia. reflexivity. }
    rewrite Hand, Z.testbit_0_l in Hb. discriminate.
  Qed.

Lemma cnt_range : 1 <= CNT <= 2 ^ 31.
  Proof.
    destruct valid_cnt_pow2 as [k [Hk ->]]. split.
    - change 1 with (2 ^ 0). apply Z.pow_le_mono_r; lia.
    - apply Z.pow_le_mono_r; lia.
  Qed.

Lemma mask_mod (x : Z) : Z.land x (CNT - 1) = x mod CNT.
  Proof.
    destruct valid_cnt_pow2 as [k [Hk ->]].
    rewrite <- Z.land_ones by lia. rewrite Z.ones_equiv. reflexivity.
  Qed.

Lemma cnt_divides : (CNT | 2 ^ 32).
  Proof.
    destruct valid_cnt_pow2 as [k [Hk ->]].
    exists (2 ^ (32 - k)). rewrite <- Z.pow_add_r by lia. f_equal. lia.
  Qed.

Lemma u32_mod_cnt (x : Z) : u32 x mod CNT = x mod CNT.
  Proof. unfold u32. apply Z.mod_mod_divide, cnt_divides. Qed.
End Capacity.

Lemma u32_sub (a b : Z) : u32 (u32 a - u32 b) = u32 (a - b).
Proof. unfold u32. rewrite <- Zminus_mod. reflexivity. Qed.

Lemma u32_add1 (a : Z) : u32 (u32 a + 1) = u32 (a + 1).
Proof. unfold u32. rewrite Zplus_mod_idemp_l. reflexivity. Qed.

Lemma u32_small (a : Z) : 0 <= a < 2 ^ 32 -> u32 a = a.
Proof. intros. unfold u32. apply Z.mod_small. assumption. Qed.

(** ** From per-operation invariants to FIFO behaviour of [run] *)
Section Refinement.
  Context {T Q : Type} (ops : queue_ops T Q) (inv : Q -> list T -> Prop).

  Hypothesis H_alloc_none : forall s q s1,
    inv s q -> op_alloc ops s = (None, s1) -> inv s1 q.
  Hypothesis H_alloc_some : forall s q p s1 x,
    inv s q -> op_alloc ops s = (Some p, s1) ->
    inv (op_push ops (op_set ops s1 p x)) (q ++ [x]).
  Hypothesis H_front_some : forall s q p y,
    inv s q -> op_front ops s = Some p ->
    exists q', q = op_get ops s p :: q' /\ inv (op_pop ops (op_set ops s p y)) q'.

Lemma tryPush_refines w s q :
    inv s q ->
    let '(_, s', tr) := tryPush ops w s in
    exists q', inv s' q' /\ q ++ written tr = read_vals tr ++ q'.
  Proof.
    intros Hi. unfold tryPush.
    destruct (op_alloc ops s) as [[p|] s1] eqn:Ha; simpl.
    - eexists. split; [eapply H_alloc_some; eauto|]. reflexivity.
    - exists q. split; [eauto|]. rewrite app_nil_r. reflexivity.
  Qed.

Lemma tryPop_refines r s q :
    inv s q ->
    let '(_, s', tr) := tryPop ops r s in
    exists q', inv s' q' /\ q ++ written tr = read_vals tr ++ q'.
  Proof.
    intros Hi. unfold tryPop.
    destruct (op_front ops s) as [p|] eqn:Hf; simpl.
    - destruct (H_front_some s q p (r (op_get ops s p)) Hi Hf) as [q' [-> Hi']].
      exists q'. split; [exact Hi'|]. rewrite app_nil_r. reflexivity.
    - exists q. split; [exact Hi|]. rewrite app_nil_r. reflexivity.
  Qed.

Lemma run_refines os : forall s q,
    inv s q ->
    let '(s', tr) := run ops os s in
    exists q', inv s' q' /\ q ++ written tr = read_vals tr ++ q'.
  Proof.
    induction os as [|[w|r] os IH]; intros s q Hi; simpl.
    - exists q. split; [exact Hi|]. rewrite app_nil_r. reflexivity.
    - pose proof (tryPush_refines w s q Hi) as Hp.
      destruct (tryPush ops w s) as [[b s1] tr1].
      destruct Hp as [q1 [Hi1 E1]].
      specialize (IH s1 q1 Hi1). destruct (run ops os s1) as [s2 tr2].
      destruct IH as [q2 [Hi2 E2]]. exists q2. split; [exact Hi2|].
      assert (Hw : forall a b : list (event T), written (a ++ b) = written a ++ written b).
      { induction a as [|[] a IHa]; intros; simpl; rewrite ?IHa; reflexivity. }
      assert (Hr : forall a b : list (event T), read_vals (a ++ b) = read_vals a ++ read_vals b).
      { induction a as [|[] a IHa]; intros; simpl; rewrite ?IHa; reflexivity. }
      rewrite Hw, Hr, app_assoc, E1, <- app_assoc, E2, app_assoc. reflexivity.
    - pose proof (tryPop_refines r s q Hi) as Hp.
      destruct (tryPop ops r s) as [[b s1] tr1].
      destruct Hp as [q1 [Hi1 E1]].
      specialize (IH s1 q1 Hi1). destruct (run ops os s1) as [s2 tr2].
      destruct IH as [q2 [Hi2 E2]]. exists q2. split; [exact Hi2|].
      assert (Hw : forall a b : list (event T), written (a ++ b) = written a ++ written b).
      { induction a as [|[] a IHa]; intros; simpl; rewrite ?IHa; reflexivity. }
      assert (Hr : forall a b : list (event T), read_vals (a ++ b) = read_vals a ++ read_vals b).
      { induction a as [|[] a IHa]; intros; simpl; rewrite ?IHa; reflexivity. }
      rewrite Hw, Hr, app_assoc, E1, <- app_assoc, E2, app_assoc. reflexivity.
  Qed.
End Refinement.

Lemma mod_eq_small (n a b : Z) : 0 < n -> 0 <= b - a < n -> a mod n = b mod n -> a = b.
Proof.
  intros Hn Hab Hm.
  pose proof (Z.div_mod a n ltac:(lia)) as Ea. pose proof (Z.div_mod b n ltac:(lia)) as Eb.
  pose proof (Z.mod_pos_bound a n Hn). pose proof (Z.mod_pos_bound b n Hn).
  assert (b / n - a / n = 0) by nia. lia.
Qed.

Lemma u32_inj (a b : Z) : 0 <= b - a < 2 ^ 32 -> u32 a = u32 b -> a = b.
Proof. intros H E. unfold u32 in E. eapply mod_eq_small; [|exact H|exact E]. lia. Qed.

Lemma to_nat_mod_lt (x n : Z) : 0 < n -> (Z.to_nat (x mod n) < Z.to_nat n)%nat.
Proof. intros Hn. pose proof (Z.mod_pos_bound x n Hn). lia. Qed.

(** ** Per-operation facts of [SPSCQueue] *)
Section IndexQueueFacts.
  Context {T : Type} `{Inhabited T}.
  Variable CNT : Z.
  Hypothesis Hv : valid_cnt CNT = true.

Lemma index_init_inv : index_inv CNT (SPSCQueue.init CNT) ([] : list T).
  Proof.
    pose proof (cnt_range CNT Hv).
    exists 0, 0, 0. cbn. rewrite length_replicate.
    repeat split; try reflexivity; try lia.
    intros i x Hx. rewrite lookup_nil in Hx. discriminate.
  Qed.

Lemma index_w_sub_c (W C : Z) : 0 <= W - C <= CNT -> u32 (u32 W - u32 C) = W - C.
  Proof.
    intros. pose proof (cnt_range CNT Hv). rewrite u32_sub. apply u32_small. lia.
  Qed.

Lemma index_alloc_none (s s1 : SPSCQueue.t T) (q : list T) :
    index_inv CNT s q -> SPSCQueue.alloc CNT s = (None, s1) ->
    index_inv CNT s1 q /\ Z.of_nat (length q) = CNT.
  Proof.
    intros (W & R & C & Hw & Hr & Hc & HCR & HWC & Hlen & Hd & Hq) Ha.
    destruct s as [d w c r]; cbn in *; subst w r c.
    unfold SPSCQueue.alloc in Ha; cbn in Ha.
    rewrite (index_w_sub_c W C) in Ha by lia.
    destruct (Z.eqb_spec (W - C) CNT); [|discriminate].
    rewrite (index_w_sub_c W R) in Ha by lia.
    destruct (Z.eqb_spec (W - R) CNT); [|discriminate].
    injection Ha as <-. split; [|lia].
    exists W, R, R. cbn. repeat split; try lia; assumption.
  Qed.

Lemma index_publish (d : list T) W R C (q : list T) x :
    C <= R <= W -> W - C < CNT -> Z.of_nat (length q) = W - R ->
    length d = Z.to_nat CNT ->
    (forall i y, q !! i = Some y -> d !! Z.to_nat ((R + Z.of_nat i) mod CNT) = Some y) ->
    index_inv CNT
      (SPSCQueue.push (SPSCQueue.set (SPSCQueue.mk d (u32 W) (u32 C) (u32 R)) (W mod CNT) x))
      (q ++ [x]).
  Proof.
    intros HCR HWC Hlen Hd Hq. pose proof (cnt_range CNT Hv) as Hcnt.
    exists (W + 1), R, C. cbn.
    rewrite u32_add1, length_insert, length_app. cbn.
    repeat split; try lia; try assumption.
    intros i y Hy.
    destruct (decide (i = length q)) as [->|Hne].
    - rewrite lookup_app_r in Hy by lia. rewrite Nat.sub_diag in Hy. injection Hy as <-.
      replace (R + Z.of_nat (length q)) with W by lia.
      apply list_lookup_insert_eq. rewrite Hd. apply to_nat_mod_lt. lia.
    - assert (Hi : (i < length q)%nat).
      { apply lookup_lt_Some in Hy. rewrite length_app in Hy. cbn in Hy. lia. }
      rewrite lookup_app_l in Hy by exact Hi.
      rewrite list_lookup_insert_ne; [exact (Hq i y Hy)|].
      intros E. apply Z2Nat.inj in E; try (apply Z.mod_pos_bound; lia).
      symmetry in E. apply mod_eq_small in E; lia.
  Qed.

Lemma index_alloc_some (s s1 : SPSCQueue.t T) (q : list T) p :
    index_inv CNT s q -> SPSCQueue.alloc CNT s = (Some p, s1) ->
    index_inv CNT s1 q /\
    forall x, index_inv CNT (SPSCQueue.push (SPSCQueue.set s1 p x)) (q ++ [x]).
  Proof.
    intros Hi Ha. pose proof Hi as (W & R & C & Hw & Hr & Hc & HCR & HWC & Hlen & Hd & Hq).
    destruct s as [d w c r]; cbn in *; subst w r c.
    unfold SPSCQueue.alloc, SPSCQueue.MASK in Ha; cbn in Ha.
    rewrite (index_w_sub_c W C) in Ha by lia.
    destruct (Z.eqb_spec (W - C) CNT).
    - rewrite (index_w_sub_c W R) in Ha by lia.
      destruct (Z.eqb_spec (W - R) CNT); [discriminate|].
      injection Ha as <- <-.
      rewrite (mask_mod CNT Hv), (u32_mod_cnt CNT Hv).
      split.
      + exists W, R, R. cbn. repeat split; try lia; assumption.
      + intros x. apply index_publish; try lia; assumption.
    - injection Ha as <- <-.
      rewrite (mask_mod CNT Hv), (u32_mod_cnt CNT Hv).
      split; [exact Hi|].
      intros x. apply index_publish; try lia; assumption.
  Qed.

Lemma index_front_none (s : SPSCQueue.t T) (q : list T) :
    index_inv CNT s q -> SPSCQueue.front CNT s = None -> q = [].
  Proof.
    intros (W & R & C & Hw & Hr & Hc & HCR & HWC & Hlen & Hd & Hq) Hf.
    pose proof (cnt_range CNT Hv).
    unfold SPSCQueue.front in Hf. rewrite Hw, Hr in Hf.
    destruct (Z.eqb_spec (u32 R) (u32 W)) as [E|]; [|discriminate].
    apply u32_inj in E; [|lia]. destruct q; [reflexivity|]. cbn in Hlen. lia.
  Qed.

Lemma index_front_some (s : SPSCQueue.t T) (q : list T) p y :
    index_inv CNT s q -> SPSCQueue.front CNT s = Some p ->
    exists q', q = SPSCQueue.get s p :: q' /\
      index_inv CNT (SPSCQueue.pop (SPSCQueue.set s p y)) q'.
  Proof.
    intros (W & R & C & Hw & Hr & Hc & HCR & HWC & Hlen & Hd & Hq) Hf.
    pose proof (cnt_range CNT Hv) as Hcnt.
    destruct s as [d w c r]; cbn in *; subst w r c.
    unfold SPSCQueue.front, SPSCQueue.MASK in Hf; cbn in Hf.
    destruct (Z.eqb_spec (u32 R) (u32 W)) as [|NE]; [discriminate|].
    injection Hf as <-. rewrite (mask_mod CNT Hv), (u32_mod_cnt CNT Hv).
    destruct q as [|x q']; [cbn in Hlen; assert (R = W) by lia; subst; contradiction|].
    exists q'. split.
    - f_equal. unfold SPSCQueue.get. cbn. symmetry. apply list_lookup_total_correct.
      specialize (Hq 0%nat x eq_refl). rewrite Z.add_0_r in Hq. exact Hq.
    - exists W, (R + 1), C. cbn.
      rewrite u32_add1, length_insert. cbn in Hlen.
      repeat split; try lia; try assumption.
      intros i z Hz.
      specialize (Hq (S i) z Hz).
      assert (Hi : (i < length q')%nat) by (apply lookup_lt_Some in Hz; exact Hz).
      replace (R + 1 + Z.of_nat i) with (R + Z.of_nat (S i)) by lia.
      rewrite list_lookup_insert_ne; [exact Hq|].
      intros E. apply Z2Nat.inj in E; try (apply Z.mod_pos_bound; lia).
      apply mod_eq_small in E; lia.
  Qed.
Lemma index_alloc_room (s : SPSCQueue.t T) (q : list T) :
    index_inv CNT s q -> Z.of_nat (length q) < CNT ->
    exists p, fst (SPSCQueue.alloc CNT s) = Some p.
  Proof.
    intros Hi Hl. destruct (SPSCQueue.alloc CNT s) as [[p|] s1] eqn:Ha; [eauto|].
    destruct (index_alloc_none s s1 q Hi Ha). lia.
  Qed.

Lemma index_alloc_full (s : SPSCQueue.t T) (q : list T) :
    index_inv CNT s q -> Z.of_nat (length q) = CNT -> fst (SPSCQueue.alloc CNT s) = None.
  Proof.
    intros (W & R & C & Hw & Hr & Hc & HCR & HWC & Hlen & Hd & Hq) Hl.
    destruct s as [d w c r]; cbn in *; subst w r c.
    unfold SPSCQueue.alloc; cbn.
    rewrite (index_w_sub_c W C) by lia.
    destruct (Z.eqb_spec (W - C) CNT); [|lia]. cbn.
    rewrite (index_w_sub_c W R) by lia.
    destruct (Z.eqb_spec (W - R) CNT); [reflexivity|lia].
  Qed.

Lemma index_front_nonempty (s : SPSCQueue.t T) (x : T) (q : list T) :
    index_inv CNT s (x :: q) -> SPSCQueue.front CNT s <> None.
  Proof.
    intros Hi Hf. apply (index_front_none s _ Hi) in Hf. discriminate.
  Qed.
Ltac sys_close Hp Hcp :=
    repeat split; try lia; try congruence;
    let X := fresh in intros X;
    first [ lia | specialize (Hp X); lia | specialize (Hcp X); lia | congruence ].

Lemma index_sys_step (c : prim T) (st st' : sys (SPSCQueue.t T)) (a b : Z) :
    index_sys_inv CNT st a b -> step (SPSCQueue.ops CNT) c st = Some st' ->
    index_sys_inv CNT st' (a + count_push [c]) (b + count_pop [c]).
  Proof.
    intros (W & R & C & Hw & Hr & Hc & HCR & HWC & Hab & Hp & Hcp) Hs.
    pose proof (cnt_range CNT Hv) as Hcnt.
    destruct st as [[d w cc r] pp cp]; cbn in *; subst w r cc.
    destruct c; cbn in Hs.
    - (* alloc *)
      unfold SPSCQueue.alloc in Hs; cbn in Hs.
      rewrite (index_w_sub_c W C) in Hs by lia.
      destruct (Z.eqb_spec (W - C) CNT).
      + rewrite (index_w_sub_c W R) in Hs by lia.
        destruct (Z.eqb_spec (W - R) CNT); injection Hs as <-;
          exists W, R, R; cbn; sys_close Hp Hcp.
      + injection Hs as <-. exists W, R, C; cbn; sys_close Hp Hcp.
    - destruct pp; [|discriminate]. injection Hs as <-.
      exists W, R, C; cbn; sys_close Hp Hcp.
    - destruct pp; [|discriminate]. injection Hs as <-.
      specialize (Hp ltac:(discriminate)).
      exists (W + 1), R, C; cbn; rewrite ?u32_add1; sys_close Hp Hcp.
    - injection Hs as <-.
      exists W, R, C; cbn; repeat split; try lia; auto.
      unfold SPSCQueue.front; cbn.
      destruct (Z.eqb_spec (u32 R) (u32 W)) as [|NE]; [congruence|].
      intros _. destruct (Z.eq_dec R W); [subst; congruence|lia].
    - destruct cp; [|discriminate]. injection Hs as <-.
      exists W, R, C; cbn; sys_close Hp Hcp.
    - destruct cp; [|discriminate]. injection Hs as <-.
      specialize (Hcp ltac:(discriminate)).
      exists W, (R + 1), C; cbn; rewrite ?u32_add1; sys_close Hp Hcp.
  Qed.

Lemma index_sys_exec (cs : list (prim T)) : forall st st' a b,
    index_sys_inv CNT st a b -> exec (SPSCQueue.ops CNT) cs st = Some st' ->
    index_sys_inv CNT st' (a + count_push cs) (b + count_pop cs).
  Proof.
    induction cs as [|c cs IH]; intros st st' a b Hi He; cbn in He.
    - injection He as <-. cbn. rewrite !Z.add_0_r. exact Hi.
    - destruct (step _ c st) as [st1|] eqn:Hs; [|discriminate].
      pose proof (index_sys_step c st st1 a b Hi Hs) as Hi1.
      specialize (IH _ _ _ _ Hi1 He).
      replace (a + count_push (c :: cs)) with (a + count_push [c] + count_push cs)
        by (destruct c; cbn; lia).
      replace (b + count_pop (c :: cs)) with (b + count_pop [c] + count_pop cs)
        by (destruct c; cbn; lia).
      exact IH.
  Qed.
End IndexQueueFacts.

Lemma mod_off_inj (n R i j : Z) :
  0 < n -> 0 <= i < n -> 0 <= j < n -> (R + i) mod n = (R + j) mod n -> i = j.
Proof.
  intros Hn Hi Hj E. destruct (Z.le_gt_cases i j).
  - apply mod_eq_small in E; lia.
  - symmetry in E. apply mod_eq_small in E; lia.
Qed.

(** ** Per-operation facts of [SPSCQueueOPT] *)
Section FlagQueueFacts.
  Context {T : Type} `{Inhabited T}.
  Variable CNT : Z.
  Hypothesis Hv : valid_cnt CNT = true.

Lemma flag_recompute (W R : Z) :
    0 <= W - R <= CNT - 1 ->
    Z.land (u32 (R mod CNT - W mod CNT + CNT - 1)) (CNT - 1) = CNT - 1 - (W - R).
  Proof.
    intros HWR. pose proof (cnt_range CNT Hv).
    rewrite (mask_mod CNT Hv), (u32_mod_cnt CNT Hv).
    rewrite (Z.mod_eq R CNT), (Z.mod_eq W CNT) by lia.
    replace (R - CNT * (R / CNT) - (W - CNT * (W / CNT)) + CNT - 1)
      with (CNT - 1 - (W - R) + (W / CNT - R / CNT) * CNT) by ring.
    rewrite Z.mod_add by lia. apply Z.mod_small. lia.
  Qed.

Lemma flag_next (W : Z) : Z.land (u32 (W mod CNT + 1)) (CNT - 1) = (W + 1) mod CNT.
  Proof.
    pose proof (cnt_range CNT Hv).
    rewrite (mask_mod CNT Hv), (u32_mod_cnt CNT Hv), Z.add_mod_idemp_l by lia. reflexivity.
  Qed.

Lemma flag_init_inv : flag_inv CNT (SPSCQueueOPT.init CNT) ([] : list T).
  Proof.
    pose proof (cnt_range CNT Hv).
    exists 0, 0. cbn. rewrite length_replicate, u32_small by lia.
    repeat split; try lia; try (rewrite Z.mod_0_l; lia).
    intros i Hi. eexists. split; [apply lookup_replicate_2|reflexivity].
    apply to_nat_mod_lt. lia.
  Qed.

Lemma flag_alloc_none (s s1 : SPSCQueueOPT.t T) (q : list T) :
    flag_inv CNT s q -> SPSCQueueOPT.alloc CNT s = (None, s1) ->
    flag_inv CNT s1 q /\ Z.of_nat (length q) = CNT - 1.
  Proof.
    intros (W & R & Hw & Hr & HRW & Hlen & Hf0 & Hf & Hl & Hb) Ha.
    destruct s as [b w f r]; cbn in *; subst w r.
    unfold SPSCQueueOPT.alloc, SPSCQueueOPT.MASK in Ha; cbn in Ha.
    destruct (Z.eqb_spec f 0); [|discriminate]. subst f.
    rewrite flag_recompute in Ha by lia.
    destruct (Z.eqb_spec (CNT - 1 - (W - R)) 0); [|discriminate].
    injection Ha as <-. split; [|lia].
    exists W, R. cbn. repeat split; try lia; assumption.
  Qed.

Lemma flag_alloc_some (s s1 : SPSCQueueOPT.t T) (q : list T) p :
    flag_inv CNT s q -> SPSCQueueOPT.alloc CNT s = (Some p, s1) ->
    flag_inv CNT s1 q /\
    forall x, flag_inv CNT (SPSCQueueOPT.push CNT (SPSCQueueOPT.set s1 p x)) (q ++ [x]).
  Proof.
    intros Hi Ha. pose proof (cnt_range CNT Hv) as Hcnt.
    destruct Hi as (W & R & Hw & Hr & HRW & Hlen & Hf0 & Hf & Hl & Hb).
    destruct s as [b w f r]; cbn in *; subst w r.
    assert (Hs1 : exists f1, s1 = SPSCQueueOPT.mk b (W mod CNT) f1 (R mod CNT) /\
                  p = W mod CNT /\ 0 < f1 /\ f1 + (W - R) <= CNT - 1).
    { unfold SPSCQueueOPT.alloc, SPSCQueueOPT.MASK in Ha; cbn in Ha.
      destruct (Z.eqb_spec f 0).
      - subst f. rewrite flag_recompute in Ha by lia.
        destruct (Z.eqb_spec (CNT - 1 - (W - R)) 0); [discriminate|].
        injection Ha as <- <-. eexists. repeat split; lia.
      - injection Ha as <- <-. eexists. repeat split; lia. }
    destruct Hs1 as (f1 & -> & -> & Hf1 & Hf1').
    split.
    - exists W, R. cbn. repeat split; try lia; assumption.
    - intros x. exists (W + 1), R.
      unfold SPSCQueueOPT.push, SPSCQueueOPT.set, SPSCQueueOPT.set_avail,
        SPSCQueueOPT.MASK; cbn.
      rewrite flag_next, u32_small by lia. rewrite length_app; cbn.
      rewrite !length_alter.
      repeat split; try lia; try assumption.
      intros i Hi.
      destruct (Hb i Hi) as (bk & Hbk & Hm).
      destruct (decide (Z.of_nat i = W - R)) as [Ei|Ni].
      + replace (R + Z.of_nat i) with W by lia.
        rewrite !list_lookup_alter_eq.
        assert (Hin : (Z.to_nat (W mod CNT) < length b)%nat)
          by (rewrite Hl; apply to_nat_mod_lt; lia).
        destruct (lookup_lt_is_Some_2 b _ Hin) as [bw Hbw].
        rewrite Hbw. cbn. eexists. split; [reflexivity|].
        rewrite lookup_app_r by lia.
        replace (i - length q)%nat with 0%nat by lia. cbn. split; reflexivity.
      + assert (Hne : Z.to_nat (W mod CNT) <> Z.to_nat ((R + Z.of_nat i) mod CNT)).
        { intros E. apply Z2Nat.inj in E; try (apply Z.mod_pos_bound; lia).
          replace W with (R + (W - R)) in E at 1 by lia.
          apply mod_off_inj in E; lia. }
        rewrite !list_lookup_alter_ne by exact Hne.
        exists bk. split; [exact Hbk|].
        destruct (decide (i < length q)%nat).
        * rewrite lookup_app_l by assumption. exact Hm.
        * rewrite lookup_app_r by lia.
          rewrite (lookup_ge_None_2 q i) in Hm by lia.
          rewrite lookup_ge_None_2 by (cbn; lia). exact Hm.
  Qed.
Lemma flag_front_none (s : SPSCQueueOPT.t T) (q : list T) :
    flag_inv CNT s q -> SPSCQueueOPT.front s = None -> q = [].
  Proof.
    intros (W & R & Hw & Hr & HRW & Hlen & Hf0 & Hf & Hl & Hb) Hfr.
    pose proof (cnt_range CNT Hv).
    destruct (Hb 0%nat ltac:(lia)) as (bk & Hbk & Hm).
    rewrite Z.add_0_r in Hbk.
    unfold SPSCQueueOPT.front in Hfr. rewrite Hr, (list_lookup_total_correct _ _ _ Hbk) in Hfr.
    destruct q as [|x q']; [reflexivity|]. cbn in Hm. destruct Hm as [Ha _]. rewrite Ha in Hfr. discriminate.
  Qed.

Lemma flag_front_some (s : SPSCQueueOPT.t T) (q : list T) p y :
    flag_inv CNT s q -> SPSCQueueOPT.front s = Some p ->
    exists q', q = SPSCQueueOPT.get s p :: q' /\
      flag_inv CNT (SPSCQueueOPT.pop CNT (SPSCQueueOPT.set s p y)) q'.
  Proof.
    intros (W & R & Hw & Hr & HRW & Hlen & Hf0 & Hf & Hl & Hb) Hfr.
    pose proof (cnt_range CNT Hv) as Hcnt.
    destruct s as [b w f r]; cbn in *; subst w r.
    pose proof (Hb 0%nat ltac:(lia)) as (b0 & Hb0 & Hm0).
    rewrite Z.add_0_r in Hb0.
    unfold SPSCQueueOPT.front in Hfr; cbn in Hfr.
    rewrite (list_lookup_total_correct _ _ _ Hb0) in Hfr.
    destruct q as [|x q']; cbn in Hm0; [rewrite Hm0 in Hfr; discriminate|].
    destruct Hm0 as [Ha0 Hd0]. rewrite Ha0 in Hfr. injection Hfr as <-.
    exists q'. split.
    - unfold SPSCQueueOPT.get. cbn. rewrite (list_lookup_total_correct _ _ _ Hb0), Hd0.
      reflexivity.
    - cbn in Hlen. exists W, (R + 1).
      unfold SPSCQueueOPT.pop, SPSCQueueOPT.set, SPSCQueueOPT.set_avail,
        SPSCQueueOPT.MASK; cbn.
      rewrite flag_next, !length_alter.
      repeat split; try lia; try assumption.
      intros i Hi.
      destruct (decide (Z.of_nat i = CNT - 1)) as [Ei|Ni].
      + replace ((R + 1 + Z.of_nat i) mod CNT) with (R mod CNT)
          by (replace (R + 1 + Z.of_nat i) with (R + 1 * CNT) by lia;
              rewrite Z.mod_add by lia; reflexivity).
        rewrite !list_lookup_alter_eq, Hb0. cbn. eexists. split; [reflexivity|].
        rewrite lookup_ge_None_2 by lia. reflexivity.
      + destruct (Hb (S i) ltac:(lia)) as (bk & Hbk & Hm).
        replace (R + Z.of_nat (S i)) with (R + 1 + Z.of_nat i) in Hbk by lia.
        assert (Hne : Z.to_nat (R mod CNT) <> Z.to_nat ((R + 1 + Z.of_nat i) mod CNT)).
        { intros E. apply Z2Nat.inj in E; try (apply Z.mod_pos_bound; lia).
          replace R with (R + 0) in E at 1 by lia.
          replace (R + 1 + Z.of_nat i) with (R + (1 + Z.of_nat i)) in E by lia.
          apply mod_off_inj in E; lia. }
        rewrite !list_lookup_alter_ne by exact Hne.
        exists bk. split; [exact Hbk|]. exact Hm.
  Qed.
Lemma flag_alloc_room (s : SPSCQueueOPT.t T) (q : list T) :
    flag_inv CNT s q -> Z.of_nat (length q) < CNT - 1 ->
    exists p, fst (SPSCQueueOPT.alloc CNT s) = Some p.
  Proof.
    intros Hi Hl. destruct (SPSCQueueOPT.alloc CNT s) as [[p|] s1] eqn:Ha; [eauto|].
    destruct (flag_alloc_none s s1 q Hi Ha). lia.
  Qed.

Lemma flag_alloc_full (s : SPSCQueueOPT.t T) (q : list T) :
    flag_inv CNT s q -> Z.of_nat (length q) = CNT - 1 ->
    fst (SPSCQueueOPT.alloc CNT s) = None.
  Proof.
    intros (W & R & Hw & Hr & HRW & Hlen & Hf0 & Hf & Hl & Hb) Hq.
    destruct s as [b w f r]; cbn in *; subst w r.
    unfold SPSCQueueOPT.alloc, SPSCQueueOPT.MASK; cbn.
    destruct (Z.eqb_spec f 0); [|lia]. cbn.
    rewrite flag_recompute by lia.
    destruct (Z.eqb_spec (CNT - 1 - (W - R)) 0); [reflexivity|lia].
  Qed.

Lemma flag_front_nonempty (s : SPSCQueueOPT.t T) (x : T) (q : list T) :
    flag_inv CNT s (x :: q) -> SPSCQueueOPT.front s <> None.
  Proof.
    intros Hi Hf. apply (flag_front_none s _ Hi) in Hf. discriminate.
  Qed.
End FlagQueueFacts.

(** ** Filling a queue with consecutive pushes *)
Section Filling.
  Context {T Q : Type} (ops : queue_ops T Q) (inv : Q -> list T -> Prop) (K : nat).

  Hypothesis H_alloc_some : forall s q p s1 x,
    inv s q -> op_alloc ops s = (Some p, s1) ->
    inv (op_push ops (op_set ops s1 p x)) (q ++ [x]).
  Hypothesis H_room : forall s q,
    inv s q -> (length q < K)%nat -> exists p, fst (op_alloc ops s) = Some p.

Lemma pushes_fill (ws : list (T -> T)) : forall s q,
    inv s q -> (length q + length ws <= K)%nat ->
    exists q', inv (snd (pushes ops ws s)) q' /\
      fst (pushes ops ws s) = repeat true (length ws) /\
      length q' = (length q + length ws)%nat.
  Proof.
    induction ws as [|w ws IH]; intros s q Hi Hk; cbn.
    - exists q. rewrite Nat.add_0_r. auto.
    - destruct (H_room s q Hi ltac:(cbn in Hk; lia)) as [p Hp].
      unfold tryPush. destruct (op_alloc ops s) as [[p'|] s1] eqn:Ha; cbn in Hp; [|discriminate].
      injection Hp as ->.
      pose proof (H_alloc_some s q p s1 (w (op_get ops s1 p)) Hi Ha) as Hi1.
      destruct (IH _ _ Hi1) as (q' & Hi' & Hb & Hl); [rewrite length_app; cbn in *; lia|].
      destruct (pushes ops ws _) as [bs s2] eqn:Hp; cbn in *.
      exists q'. rewrite Hb. split; [exact Hi'|]. split; [reflexivity|].
      rewrite Hl, length_app. cbn. lia.
  Qed.
End Filling.

(** ** FIFO behaviour of both queues from the initial state *)
Section FifoRuns.
  Context {T : Type} `{Inhabited T}.
  Variable CNT : Z.
  Hypothesis Hv : valid_cnt CNT = true.

Lemma index_run_fifo (os : list (op T)) :
    let '(s', tr) := run (SPSCQueue.ops (T := T) CNT) os (SPSCQueue.init CNT) in
    exists q', index_inv CNT s' q' /\ written tr = read_vals tr ++ q'.
  Proof.
    pose proof (run_refines (SPSCQueue.ops (T := T) CNT) (index_inv CNT)) as R.
    specialize (R ltac:(intros s q s1 Hi Ha; eapply index_alloc_none; eauto)).
    specialize (R ltac:(intros s q p s1 x Hi Ha; eapply index_alloc_some; eauto)).
    specialize (R ltac:(intros s q p y Hi Hf; eapply index_front_some; eauto)).
    exact (R os _ [] (index_init_inv CNT Hv)).
  Qed.

Lemma flag_run_fifo (os : list (op T)) :
    let '(s', tr) := run (SPSCQueueOPT.ops (T := T) CNT) os (SPSCQueueOPT.init CNT) in
    exists q', flag_inv CNT s' q' /\ written tr = read_vals tr ++ q'.
  Proof.
    pose proof (run_refines (SPSCQueueOPT.ops (T := T) CNT) (flag_inv CNT)) as R.
    specialize (R ltac:(intros s q s1 Hi Ha; eapply flag_alloc_none; eauto)).
    specialize (R ltac:(intros s q p s1 x Hi Ha; eapply flag_alloc_some; eauto)).
    specialize (R ltac:(intros s q p y Hi Hf; eapply flag_front_some; eauto)).
    exact (R os _ [] (flag_init_inv CNT Hv)).
  Qed.
End FifoRuns.

(** ** The wrappers over any queue *)
Section WrapperFacts.
  Context {T Q : Type} (ops : queue_ops T Q).

Lemma tryPush_spec (writer : T -> T) (s : Q) :
    (fst (fst (tryPush ops writer s)) = false <-> fst (op_alloc ops s) = None) /\
    (forall s1, op_alloc ops s = (None, s1) -> tryPush ops writer s = (false, s1, [])) /\
    (forall p s1, op_alloc ops s = (Some p, s1) ->
       tryPush ops writer s =
         (true, op_push ops (op_set ops s1 p (writer (op_get ops s1 p))),
          [EvWriter p (writer (op_get ops s1 p)); EvPush])).
  Proof.
    unfold tryPush. destruct (op_alloc ops s) as [[p|] s1]; cbn.
    - split; [split; discriminate|]. split; [discriminate|].
      intros p' s1' E. injection E as <- <-. reflexivity.
    - split; [split; reflexivity|]. split; [intros s1' E; injection E as <-; reflexivity|].
      discriminate.
  Qed.

Lemma tryPop_spec (reader : T -> T) (s : Q) :
    (fst (fst (tryPop ops reader s)) = false <-> op_front ops s = None) /\
    (op_front ops s = None -> tryPop ops reader s = (false, s, [])) /\
    (forall p, op_front ops s = Some p ->
       tryPop ops reader s =
         (true, op_pop ops (op_set ops s p (reader (op_get ops s p))),
          [EvReader p (op_get ops s p); EvPop])).
  Proof.
    unfold tryPop. destruct (op_front ops s) as [p|]; cbn.
    - split; [split; discriminate|]. split; [discriminate|].
      intros p' E. injection E as <-. reflexivity.
    - split; [split; reflexivity|]. split; [reflexivity|]. discriminate.
  Qed.

Lemma blockPush_retry (fuel : nat) (writer : T -> T) (s s1 : Q) tr :
    tryPush ops writer s = (false, s1, tr) ->
    blockPush ops (S fuel) writer s =
      match blockPush ops fuel writer s1 with
      | Some (n, s', tr') => Some (S n, s', tr ++ tr')
      | None => None
      end.
  Proof. intros E. cbn. rewrite E. reflexivity. Qed.

Lemma blockPush_room (fuel : nat) (writer : T -> T) (s : Q) p s1 :
    op_alloc ops s = (Some p, s1) ->
    blockPush ops (S fuel) writer s =
      Some (1%nat, op_push ops (op_set ops s1 p (writer (op_get ops s1 p))),
            [EvWriter p (writer (op_get ops s1 p)); EvPush]).
  Proof.
    intros Ha. cbn. destruct (tryPush_spec writer s) as (_ & _ & H3).
    rewrite (H3 p s1 Ha). reflexivity.
  Qed.
End WrapperFacts.

(** ** [SPSCQueueOPT] with [CNT = 1], and index bounds *)
Section FlagQueueMore.
  Context {T : Type} `{Inhabited T}.

Lemma flag1_alloc (s : SPSCQueueOPT.t T) :
    SPSCQueueOPT.free_write_cnt s = 0 ->
    SPSCQueueOPT.alloc 1 s =
      (None, SPSCQueueOPT.mk (SPSCQueueOPT.blk s) (SPSCQueueOPT.write_idx s) 0
                             (SPSCQueueOPT.read_idx s)).
  Proof.
    intros Hf. unfold SPSCQueueOPT.alloc, SPSCQueueOPT.MASK. rewrite Hf. cbn.
    rewrite Z.land_0_r. reflexivity.
  Qed.

Lemma flag1_run (os : list (op T)) : forall s : SPSCQueueOPT.t T,
    SPSCQueueOPT.free_write_cnt s = 0 ->
    let '(s', tr) := run (SPSCQueueOPT.ops 1) os s in
    SPSCQueueOPT.free_write_cnt s' = 0 /\ written tr = [].
  Proof.
    induction os as [|[w|r] os IH]; intros s Hf; cbn; [auto|..].
    - unfold tryPush. cbn. rewrite (flag1_alloc s Hf).
      specialize (IH (SPSCQueueOPT.mk (SPSCQueueOPT.blk s) (SPSCQueueOPT.write_idx s) 0
                                     (SPSCQueueOPT.read_idx s)) eq_refl).
      destruct (run _ os _) as [s2 tr2]. exact IH.
    - unfold tryPop. cbn.
      destruct (SPSCQueueOPT.front s) as [p|].
      + specialize (IH (SPSCQueueOPT.pop 1 (SPSCQueueOPT.set s p (r (SPSCQueueOPT.get s p))))
                       ltac:(destruct s; exact Hf)).
        destruct (run _ os _) as [s2 tr2]. exact IH.
      + specialize (IH s Hf). destruct (run _ os _) as [s2 tr2]. exact IH.
  Qed.

Lemma flag_bounds_step (CNT : Z) (Hv : valid_cnt CNT = true)
      (c : prim T) (st st' : sys (SPSCQueueOPT.t T)) :
    flag_bounds CNT (sq st) -> step (SPSCQueueOPT.ops CNT) c st = Some st' ->
    flag_bounds CNT (sq st').
  Proof.
    unfold flag_bounds. intros (Hw & Hr & Hl) Hs. pose proof (cnt_range CNT Hv) as Hcnt.
    destruct st as [[b w f r] pp cp]; cbn in *.
    destruct c; cbn in Hs.
    - unfold SPSCQueueOPT.alloc in Hs; cbn in Hs.
      destruct (f =? 0); [destruct (_ =? 0)|]; injection Hs as <-; cbn.
      all: repeat split; lia.
    - destruct pp; [|discriminate]. injection Hs as <-. cbn.
      rewrite length_alter. repeat split; lia.
    - destruct pp; [|discriminate]. injection Hs as <-. cbn.
      unfold SPSCQueueOPT.set_avail, SPSCQueueOPT.MASK.
      rewrite length_alter, (mask_mod CNT Hv).
      pose proof (Z.mod_pos_bound (u32 (w + 1)) CNT ltac:(lia)). repeat split; lia.
    - injection Hs as <-. cbn. repeat split; lia.
    - destruct cp; [|discriminate]. injection Hs as <-. cbn.
      rewrite length_alter. repeat split; lia.
    - destruct cp; [|discriminate]. injection Hs as <-. cbn.
      unfold SPSCQueueOPT.set_avail, SPSCQueueOPT.MASK.
      rewrite length_alter, (mask_mod CNT Hv).
      pose proof (Z.mod_pos_bound (u32 (r + 1)) CNT ltac:(lia)). repeat split; lia.
  Qed.

Lemma flag_bounds_exec (CNT : Z) (Hv : valid_cnt CNT = true) (cs : list (prim T)) :
    forall st st', flag_bounds CNT (sq st) ->
    exec (SPSCQueueOPT.ops CNT) cs st = Some st' -> flag_bounds CNT (sq st').
  Proof.
    induction cs as [|c cs IH]; intros st st' Hb He; cbn in He.
    - injection He as <-. exact Hb.
    - destruct (step _ c st) as [st1|] eqn:Hs; [|discriminate].
      exact (IH _ _ (flag_bounds_step CNT Hv c st st1 Hb Hs) He).
  Qed.
End FlagQueueMore.

(** ** Claims *)
Section Claims.
  Context {T : Type} `{Inhabited T}.

  (** C1: for any interleaving [os] of [tryPush] and [tryPop] calls, and for
      both [SPSCQueue] and [SPSCQueueOPT] started from their initial state,
      the values seen by the reader callbacks of the successful [tryPop]
      calls are, in order, a prefix of the values stored by the writer
      callbacks of the successful [tryPush] calls. *)
Theorem C1_fifo_prefix (CNT : Z) (Hv : valid_cnt CNT = true) (os : list (op T)) :
    read_vals (snd (run (SPSCQueue.ops (T := T) CNT) os (SPSCQueue.init CNT)))
      `prefix_of` written (snd (run (SPSCQueue.ops CNT) os (SPSCQueue.init CNT))) /\
    read_vals (snd (run (SPSCQueueOPT.ops (T := T) CNT) os (SPSCQueueOPT.init CNT)))
      `prefix_of` written (snd (run (SPSCQueueOPT.ops CNT) os (SPSCQueueOPT.init CNT))).
  Proof.
    split.
    - pose proof (index_run_fifo CNT Hv os) as R.
      destruct (run _ os _) as [s' tr]. destruct R as [q' [_ E]]. exists q'. exact E.
    - pose proof (flag_run_fifo CNT Hv os) as R.
      destruct (run _ os _) as [s' tr]. destruct R as [q' [_ E]]. exists q'. exact E.
  Qed.
  (** C2: [SPSCQueue] of capacity [CNT]: from the initial state, [CNT]
      consecutive [tryPush] calls all succeed (no pop); the next [alloc]
      returns null; after one [tryPop] (which succeeds) the next [alloc]
      returns a slot again. *)
Theorem C2_index_capacity (CNT : Z) (Hv : valid_cnt CNT = true)
      (ws : list (T -> T)) (Hws : length ws = Z.to_nat CNT) (r : T -> T) :
    let s := snd (pushes (SPSCQueue.ops CNT) ws (SPSCQueue.init CNT)) in
    fst (pushes (SPSCQueue.ops CNT) ws (SPSCQueue.init CNT)) = repeat true (Z.to_nat CNT) /\
    fst (SPSCQueue.alloc CNT s) = None /\
    let s1 := snd (SPSCQueue.alloc CNT s) in
    exists s2 tr, tryPop (SPSCQueue.ops CNT) r s1 = (true, s2, tr) /\
      exists p, fst (SPSCQueue.alloc CNT s2) = Some p.
  Proof.
    pose proof (cnt_range CNT Hv) as Hcnt.
    destruct (pushes_fill (SPSCQueue.ops (T := T) CNT) (index_inv CNT) (Z.to_nat CNT)
                ltac:(intros s q p s1 x Hi Ha; eapply index_alloc_some; eauto)
                ltac:(intros s q Hi Hl; eapply index_alloc_room; eauto; lia)
                ws (SPSCQueue.init CNT) [] (index_init_inv CNT Hv) ltac:(cbn; lia))
      as (q & Hi & Hb & Hl).
    cbn in Hl. rewrite Hws in Hb, Hl.
    cbv zeta. split; [exact Hb|].
    set (s := snd (pushes _ ws _)) in *.
    split; [apply (index_alloc_full CNT Hv s q Hi); lia|].
    destruct (SPSCQueue.alloc CNT s) as [[p|] s1] eqn:Ha.
    { pose proof (index_alloc_full CNT Hv s q Hi ltac:(lia)) as F. rewrite Ha in F. discriminate. }
    cbn. destruct (index_alloc_none CNT Hv s s1 q Hi Ha) as [Hi1 _].
    destruct q as [|x q']; [cbn in Hl; lia|].
    unfold tryPop. cbn.
    destruct (SPSCQueue.front CNT s1) as [pf|] eqn:Hf;
      [|exfalso; exact (index_front_nonempty CNT Hv s1 x q' Hi1 Hf)].
    do 2 eexists. split; [reflexivity|].
    destruct (index_front_some CNT Hv s1 (x :: q') pf (r (SPSCQueue.get s1 pf)) Hi1 Hf)
      as (q'' & Eq & Hi2).
    injection Eq as _ <-.
    apply (index_alloc_room CNT Hv _ q' Hi2). cbn in Hl. lia.
  Qed.

  (** C3: [SPSCQueueOPT] of capacity [CNT]: from the initial state, [CNT - 1]
      consecutive [tryPush] calls succeed and the next [alloc] returns null;
      in no interleaving without a successful pop do more than [CNT - 1]
      pushes succeed; and after one pop exactly one more push succeeds before
      [alloc] returns null again. *)
Theorem C3_flag_capacity (CNT : Z) (Hv : valid_cnt CNT = true)
      (ws : list (T -> T)) (Hws : length ws = Z.to_nat (CNT - 1)) (w r : T -> T)
      (os : list (op T)) :
    (let s := snd (pushes (SPSCQueueOPT.ops CNT) ws (SPSCQueueOPT.init CNT)) in
     fst (pushes (SPSCQueueOPT.ops CNT) ws (SPSCQueueOPT.init CNT))
       = repeat true (Z.to_nat (CNT - 1)) /\
     fst (SPSCQueueOPT.alloc CNT s) = None /\
     let s1 := snd (SPSCQueueOPT.alloc CNT s) in
     (1 < CNT -> fst (fst (tryPop (SPSCQueueOPT.ops CNT) r s1)) = true) /\
     (forall s2 tr, tryPop (SPSCQueueOPT.ops CNT) r s1 = (true, s2, tr) ->
        exists s3 tr', tryPush (SPSCQueueOPT.ops CNT) w s2 = (true, s3, tr') /\
          fst (SPSCQueueOPT.alloc CNT s3) = None)) /\
    (read_vals (snd (run (SPSCQueueOPT.ops CNT) os (SPSCQueueOPT.init CNT))) = [] ->
     (length (written (snd (run (SPSCQueueOPT.ops CNT) os (SPSCQueueOPT.init CNT))))
        <= Z.to_nat (CNT - 1))%nat).
  Proof.
    pose proof (cnt_range CNT Hv) as Hcnt. split.
    - destruct (pushes_fill (SPSCQueueOPT.ops (T := T) CNT) (flag_inv CNT) (Z.to_nat (CNT - 1))
                  ltac:(intros s q p s1 x Hi Ha; eapply flag_alloc_some; eauto)
                  ltac:(intros s q Hi Hl; eapply flag_alloc_room; eauto; lia)
                  ws (SPSCQueueOPT.init CNT) [] (flag_init_inv CNT Hv) ltac:(cbn; lia))
        as (q & Hi & Hb & Hl).
      cbn in Hl. rewrite Hws in Hb, Hl.
      cbv zeta. split; [exact Hb|].
      set (s := snd (pushes _ ws _)) in *.
      split; [apply (flag_alloc_full CNT Hv s q Hi); lia|].
      destruct (SPSCQueueOPT.alloc CNT s) as [[p|] s1] eqn:Ha.
      { pose proof (flag_alloc_full CNT Hv s q Hi ltac:(lia)) as F. rewrite Ha in F. discriminate. }
      cbn. destruct (flag_alloc_none CNT Hv s s1 q Hi Ha) as [Hi1 _].
      split.
      + intros Hgt. destruct q as [|x q']; [cbn in Hl; lia|].
        unfold tryPop. cbn.
        destruct (SPSCQueueOPT.front s1) as [pf|] eqn:Hf; [reflexivity|].
        exfalso. exact (flag_front_nonempty CNT Hv s1 x q' Hi1 Hf).
      + intros s2 tr Hp. unfold tryPop in Hp. cbn in Hp.
        destruct (SPSCQueueOPT.front s1) as [pf|] eqn:Hf; [|discriminate].
        injection Hp as <- _.
        destruct (flag_front_some CNT Hv s1 q pf (r (SPSCQueueOPT.get s1 pf)) Hi1 Hf)
          as (q'' & Eq & Hi2).
        assert (Hl2 : Z.of_nat (length q'') = CNT - 2) by (rewrite Eq in Hl; cbn in Hl; lia).
        set (s2 := SPSCQueueOPT.pop CNT _) in *.
        destruct (SPSCQueueOPT.alloc CNT s2) as [[p2|] s3] eqn:Ha2.
        2:{ pose proof (flag_alloc_room CNT Hv s2 q'' Hi2 ltac:(lia)) as [p' Hp'].
            rewrite Ha2 in Hp'. discriminate. }
        unfold tryPush. cbn. rewrite Ha2.
        do 2 eexists. split; [reflexivity|].
        destruct (flag_alloc_some CNT Hv s2 s3 q'' p2 Hi2 Ha2) as [_ Hi3].
        eapply flag_alloc_full; [exact Hv|apply Hi3|].
        rewrite length_app. cbn. lia.
    - intros Hnone. pose proof (flag_run_fifo CNT Hv os) as R.
      destruct (run _ os _) as [s' tr]. destruct R as (q' & Hi & E). cbn in *.
      rewrite E, Hnone. cbn.
      destruct Hi as (W & R & _ & _ & _ & Hlen & Hf0 & Hf & _). lia.
  Qed.
  (** C4: [SPSCQueue]: along every interleaving of [alloc], in-place writes,
      [push], [front], in-place reads and [pop] that respects the usage
      contract (push only while holding a successful alloc, pop only while
      holding a successful front), the 32-bit difference
      [(write_idx - read_idx) mod 2^32] is at most [CNT] and equals the number
      of [push] calls minus the number of [pop] calls. *)
Theorem C4_index_cursor_gap (CNT : Z) (Hv : valid_cnt CNT = true)
      (cs : list (prim T)) (st : sys (SPSCQueue.t T)) :
    exec (SPSCQueue.ops CNT) cs (mksys (SPSCQueue.init CNT) None None) = Some st ->
    u32 (SPSCQueue.write_idx (sq st) - SPSCQueue.read_idx (sq st)) <= CNT /\
    u32 (SPSCQueue.write_idx (sq st) - SPSCQueue.read_idx (sq st))
      = count_push cs - count_pop cs.
  Proof.
    intros He. pose proof (cnt_range CNT Hv).
    assert (Hinit : index_sys_inv (T := T) CNT (mksys (SPSCQueue.init CNT) None None) 0 0).
    { exists 0, 0, 0. cbn. repeat split; try lia; congruence. }
    destruct (index_sys_exec CNT Hv cs _ _ 0 0 Hinit He)
      as (W & R & C & Hw & Hr & Hc & HCR & HWC & Hab & _ & _).
    rewrite Hw, Hr, (index_w_sub_c CNT Hv W R) by lia. lia.
  Qed.
  (** C5 (counterexample): with [CNT = 2], after one element has been pushed
      and popped and a second one pushed, the consumer holds slot [1]
      ([read_idx = 1 = CNT - 1]); [pop] then stores [(1 + 1) & 1 = 0] into
      [read_idx], not [2]. *)
Lemma C5_counterexample : ~ C5_claim (T := nat) 2.
  Proof.
    unfold C5_claim. intros Hc.
    set (cs := [PAlloc; PPush; PFront; PPop; PAlloc; PPush; PFront] : list (prim nat)).
    destruct (exec (SPSCQueueOPT.ops 2) cs (mksys (SPSCQueueOPT.init 2) None None))
      as [st|] eqn:E.
    2:{ vm_compute in E. discriminate. }
    specialize (Hc cs st E).
    vm_compute in E. injection E as <-.
    specialize (Hc ltac:(discriminate)). vm_compute in Hc. discriminate.
  Qed.
  (** C5 (amended): [SPSCQueueOPT::pop] clears the [avail] flag of block
      [read_idx] and stores [(read_idx + 1) & MASK], i.e.
      [(read_idx + 1) mod CNT], into [read_idx]: the read index advances by
      one modulo [CNT] and wraps from [CNT - 1] to [0]; nothing else changes. *)
Theorem C5_flag_pop_wraps (CNT : Z) (Hv : valid_cnt CNT = true) (s : SPSCQueueOPT.t T) :
    (forall b, SPSCQueueOPT.blk s !! Z.to_nat (SPSCQueueOPT.read_idx s) = Some b ->
       SPSCQueueOPT.blk (SPSCQueueOPT.pop CNT s) !! Z.to_nat (SPSCQueueOPT.read_idx s)
         = Some (SPSCQueueOPT.mkBlock false (SPSCQueueOPT.data b))) /\
    (forall i, i <> Z.to_nat (SPSCQueueOPT.read_idx s) ->
       SPSCQueueOPT.blk (SPSCQueueOPT.pop CNT s) !! i = SPSCQueueOPT.blk s !! i) /\
    SPSCQueueOPT.write_idx (SPSCQueueOPT.pop CNT s) = SPSCQueueOPT.write_idx s /\
    SPSCQueueOPT.free_write_cnt (SPSCQueueOPT.pop CNT s) = SPSCQueueOPT.free_write_cnt s /\
    SPSCQueueOPT.read_idx (SPSCQueueOPT.pop CNT s) = (SPSCQueueOPT.read_idx s + 1) mod CNT /\
    (0 <= SPSCQueueOPT.read_idx s < CNT ->
     SPSCQueueOPT.read_idx (SPSCQueueOPT.pop CNT s) =
       if SPSCQueueOPT.read_idx s =? CNT - 1 then 0 else SPSCQueueOPT.read_idx s + 1).
  Proof.
    pose proof (cnt_range CNT Hv) as Hcnt.
    destruct s as [b w f r]. unfold SPSCQueueOPT.pop, SPSCQueueOPT.set_avail,
      SPSCQueueOPT.MASK; cbn.
    rewrite (mask_mod CNT Hv), (u32_mod_cnt CNT Hv).
    split; [intros bk Hb; rewrite list_lookup_alter_eq, Hb; reflexivity|].
    split; [intros i Hi; apply list_lookup_alter_ne; congruence|].
    do 3 (split; [reflexivity|]).
    intros Hr. destruct (Z.eqb_spec r (CNT - 1)) as [->|Ne].
    - replace (CNT - 1 + 1) with (0 + 1 * CNT) by lia. rewrite Z.mod_add by lia.
      apply Z.mod_0_l. lia.
    - apply Z.mod_small. lia.
  Qed.
  (** C6: [SPSCQueueOPT] with [CNT = 1]: [free_write_cnt] starts at [0], the
      recomputation [(rd_idx - write_idx + CNT - 1) & MASK] is [0] for every
      pair of indices, so [alloc] returns null on every state whose cache is
      [0]; along every interleaving from the initial state no [tryPush]
      succeeds (no writer callback ever runs) and [alloc] still returns null. *)
Theorem C6_flag_cnt1_never_holds (os : list (op T)) :
    SPSCQueueOPT.free_write_cnt (SPSCQueueOPT.init (T := T) 1) = 0 /\
    (forall rd_idx write_idx : Z,
       Z.land (u32 (rd_idx - write_idx + 1 - 1)) (SPSCQueueOPT.MASK 1) = 0) /\
    (forall s : SPSCQueueOPT.t T, SPSCQueueOPT.free_write_cnt s = 0 ->
       fst (SPSCQueueOPT.alloc 1 s) = None /\
       SPSCQueueOPT.free_write_cnt (snd (SPSCQueueOPT.alloc 1 s)) = 0) /\
    (let '(s', tr) := run (SPSCQueueOPT.ops 1) os (SPSCQueueOPT.init 1) in
     written tr = [] /\ fst (SPSCQueueOPT.alloc 1 s') = None).
  Proof.
    split; [reflexivity|]. split; [intros; apply Z.land_0_r|].
    split; [intros s' Hf; rewrite (flag1_alloc s' Hf); split; reflexivity|].
    pose proof (flag1_run os (SPSCQueueOPT.init 1) eq_refl) as R.
    destruct (run _ os _) as [s' tr]. destruct R as [Hf Hw].
    split; [exact Hw|]. rewrite (flag1_alloc s' Hf). reflexivity.
  Qed.

  (** C7: for both classes and every state: [tryPush] returns false exactly
      when [alloc] returns null, and then runs no writer and leaves the state
      [alloc] left; otherwise it runs the writer once on the slot [alloc]
      returned, then [push]; likewise [tryPop] with [front], the reader and
      [pop]. *)
Theorem C7_try_wrappers (CNT : Z) (writer reader : T -> T)
      (si : SPSCQueue.t T) (sf : SPSCQueueOPT.t T) :
    try_contract (SPSCQueue.ops CNT) writer reader si /\
    try_contract (SPSCQueueOPT.ops CNT) writer reader sf.
  Proof.
    split; unfold try_contract;
      (split; [apply tryPush_spec|]); (split; [apply tryPush_spec|]);
      (split; [apply tryPush_spec|]); apply tryPop_spec.
  Qed.

  (** C8: for both classes: [blockPush] is the loop that calls [tryPush]
      again on the state a failed call left; from a state where [alloc]
      returns a slot it ends after exactly one [tryPush] call, with one
      writer call and one [push]. *)
Theorem C8_blockPush (CNT : Z) (fuel : nat) (writer : T -> T)
      (si : SPSCQueue.t T) (sf : SPSCQueueOPT.t T) :
    blockPush_contract (SPSCQueue.ops CNT) fuel writer si /\
    blockPush_contract (SPSCQueueOPT.ops CNT) fuel writer sf.
  Proof.
    split; split; [apply blockPush_retry|apply blockPush_room|
                   apply blockPush_retry|apply blockPush_room].
  Qed.

  (** C9: for both classes and every state: a failed [tryPush] leaves the
      slots, the flags, [write_idx] and [read_idx] as they were (only the
      producer's cache may have been refreshed) and logs no callback; a
      failed [tryPop] leaves the whole state as it was. *)
Theorem C9_failed_try_no_effect (CNT : Z) (writer reader : T -> T)
      (si : SPSCQueue.t T) (sf : SPSCQueueOPT.t T) :
    (forall si' tr, tryPush (SPSCQueue.ops CNT) writer si = (false, si', tr) ->
       tr = [] /\ SPSCQueue.data si' = SPSCQueue.data si /\
       SPSCQueue.write_idx si' = SPSCQueue.write_idx si /\
       SPSCQueue.read_idx si' = SPSCQueue.read_idx si) /\
    (forall si' tr, tryPop (SPSCQueue.ops CNT) reader si = (false, si', tr) ->
       tr = [] /\ si' = si) /\
    (forall sf' tr, tryPush (SPSCQueueOPT.ops CNT) writer sf = (false, sf', tr) ->
       tr = [] /\ SPSCQueueOPT.blk sf' = SPSCQueueOPT.blk sf /\
       SPSCQueueOPT.write_idx sf' = SPSCQueueOPT.write_idx sf /\
       SPSCQueueOPT.read_idx sf' = SPSCQueueOPT.read_idx sf) /\
    (forall sf' tr, tryPop (SPSCQueueOPT.ops CNT) reader sf = (false, sf', tr) ->
       tr = [] /\ sf' = sf).
  Proof.
    split; [|split; [|split]]; intros s' tr E; unfold tryPush, tryPop in E; cbn in E.
    - unfold SPSCQueue.alloc in E.
      destruct (_ =? CNT); [destruct (_ =? CNT)|]; cbn in E;
        first [discriminate | injection E as <- <-; auto].
    - destruct (SPSCQueue.front CNT si); first [discriminate | injection E as <- <-; auto].
    - unfold SPSCQueueOPT.alloc in E.
      destruct (_ =? 0); [destruct (_ =? 0)|]; cbn in E;
        first [discriminate | injection E as <- <-; auto].
    - destruct (SPSCQueueOPT.front sf); first [discriminate | injection E as <- <-; auto].
  Qed.

  (** C10: [SPSCQueueOPT]: along every interleaving of primitive operations
      from the initial state, [write_idx] and [read_idx] lie in [0, CNT) and
      the block array has [CNT] elements, so [blk[write_idx]] and
      [blk[read_idx]] are in bounds. *)
Theorem C10_flag_indices_in_bounds (CNT : Z) (Hv : valid_cnt CNT = true)
      (cs : list (prim T)) (st : sys (SPSCQueueOPT.t T)) :
    exec (SPSCQueueOPT.ops CNT) cs (mksys (SPSCQueueOPT.init CNT) None None) = Some st ->
    0 <= SPSCQueueOPT.write_idx (sq st) < CNT /\ 0 <= SPSCQueueOPT.read_idx (sq st) < CNT /\
    length (SPSCQueueOPT.blk (sq st)) = Z.to_nat CNT /\
    is_Some (SPSCQueueOPT.blk (sq st) !! Z.to_nat (SPSCQueueOPT.write_idx (sq st))) /\
    is_Some (SPSCQueueOPT.blk (sq st) !! Z.to_nat (SPSCQueueOPT.read_idx (sq st))).
  Proof.
    intros He. pose proof (cnt_range CNT Hv) as Hcnt.
    assert (Hb0 : flag_bounds (T := T) CNT (SPSCQueueOPT.init CNT)).
    { unfold flag_bounds. cbn. rewrite length_replicate. repeat split; lia. }
    destruct (flag_bounds_exec CNT Hv cs (mksys (SPSCQueueOPT.init CNT) None None) _ Hb0 He)
      as (Hw & Hr & Hl).
    repeat split; try lia; try assumption; apply lookup_lt_is_Some_2; lia.
  Qed.
End Claims.

(** ** Instances of the claims at concrete inputs *)

Lemma C1_fifo_prefix_witness :
  valid_cnt 4 = true /\
  (read_vals (snd (run (SPSCQueue.ops 4) demo_ops (SPSCQueue.init 4)))
     `prefix_of` written (snd (run (SPSCQueue.ops 4) demo_ops (SPSCQueue.init 4))) /\
   read_vals (snd (run (SPSCQueueOPT.ops 4) demo_ops (SPSCQueueOPT.init 4)))
     `prefix_of` written (snd (run (SPSCQueueOPT.ops 4) demo_ops (SPSCQueueOPT.init 4)))).
Proof. split; [reflexivity|]. exact (C1_fifo_prefix 4 eq_refl demo_ops). Defined.

Lemma C2_index_capacity_witness :
  valid_cnt 4 = true /\ length demo_writers4 = Z.to_nat 4 /\
  (let s := snd (pushes (SPSCQueue.ops 4) demo_writers4 (SPSCQueue.init 4)) in
   fst (pushes (SPSCQueue.ops 4) demo_writers4 (SPSCQueue.init 4)) = repeat true (Z.to_nat 4) /\
   fst (SPSCQueue.alloc 4 s) = None /\
   let s1 := snd (SPSCQueue.alloc 4 s) in
   exists s2 tr, tryPop (SPSCQueue.ops 4) take s1 = (true, s2, tr) /\
     exists p, fst (SPSCQueue.alloc 4 s2) = Some p).
Proof.
  split; [reflexivity|]. split; [reflexivity|].
  exact (C2_index_capacity 4 eq_refl demo_writers4 eq_refl take).
Defined.

Lemma C3_flag_capacity_witness :
  valid_cnt 4 = true /\ length demo_writers3 = Z.to_nat (4 - 1) /\
  ((let s := snd (pushes (SPSCQueueOPT.ops 4) demo_writers3 (SPSCQueueOPT.init 4)) in
    fst (pushes (SPSCQueueOPT.ops 4) demo_writers3 (SPSCQueueOPT.init 4))
      = repeat true (Z.to_nat (4 - 1)) /\
    fst (SPSCQueueOPT.alloc 4 s) = None /\
    let s1 := snd (SPSCQueueOPT.alloc 4 s) in
    (1 < 4 -> fst (fst (tryPop (SPSCQueueOPT.ops 4) take s1)) = true) /\
    (forall s2 tr, tryPop (SPSCQueueOPT.ops 4) take s1 = (true, s2, tr) ->
       exists s3 tr', tryPush (SPSCQueueOPT.ops 4) (put 4%nat) s2 = (true, s3, tr') /\
         fst (SPSCQueueOPT.alloc 4 s3) = None)) /\
   (read_vals (snd (run (SPSCQueueOPT.ops 4) demo_ops (SPSCQueueOPT.init 4))) = [] ->
    (length (written (snd (run (SPSCQueueOPT.ops 4) demo_ops (SPSCQueueOPT.init 4))))
       <= Z.to_nat (4 - 1))%nat)).
Proof.
  split; [reflexivity|]. split; [reflexivity|].
  exact (C3_flag_capacity 4 eq_refl demo_writers3 eq_refl (put 4%nat) take demo_ops).
Defined.

Lemma C4_index_cursor_gap_witness :
  valid_cnt 4 = true /\
  exec (SPSCQueue.ops 4) demo_prims (mksys (SPSCQueue.init 4) None None) = Some demo_index_sys /\
  (u32 (SPSCQueue.write_idx (sq demo_index_sys) - SPSCQueue.read_idx (sq demo_index_sys)) <= 4 /\
   u32 (SPSCQueue.write_idx (sq demo_index_sys) - SPSCQueue.read_idx (sq demo_index_sys))
     = count_push demo_prims - count_pop demo_prims).
Proof.
  assert (E : exec (SPSCQueue.ops 4) demo_prims (mksys (SPSCQueue.init 4) None None)
              = Some demo_index_sys) by (vm_compute; reflexivity).
  split; [reflexivity|]. split; [exact E|].
  exact (C4_index_cursor_gap 4 eq_refl demo_prims demo_index_sys E).
Defined.

Lemma C5_flag_pop_wraps_witness :
  valid_cnt 4 = true /\
  ((forall b, SPSCQueueOPT.blk demo_wrap_state !! Z.to_nat (SPSCQueueOPT.read_idx demo_wrap_state)
                = Some b ->
      SPSCQueueOPT.blk (SPSCQueueOPT.pop 4 demo_wrap_state)
        !! Z.to_nat (SPSCQueueOPT.read_idx demo_wrap_state)
        = Some (SPSCQueueOPT.mkBlock false (SPSCQueueOPT.data b))) /\
   (forall i, i <> Z.to_nat (SPSCQueueOPT.read_idx demo_wrap_state) ->
      SPSCQueueOPT.blk (SPSCQueueOPT.pop 4 demo_wrap_state) !! i
        = SPSCQueueOPT.blk demo_wrap_state !! i) /\
   SPSCQueueOPT.write_idx (SPSCQueueOPT.pop 4 demo_wrap_state)
     = SPSCQueueOPT.write_idx demo_wrap_state /\
   SPSCQueueOPT.free_write_cnt (SPSCQueueOPT.pop 4 demo_wrap_state)
     = SPSCQueueOPT.free_write_cnt demo_wrap_state /\
   SPSCQueueOPT.read_idx (SPSCQueueOPT.pop 4 demo_wrap_state)
     = (SPSCQueueOPT.read_idx demo_wrap_state + 1) mod 4 /\
   (0 <= SPSCQueueOPT.read_idx demo_wrap_state < 4 ->
    SPSCQueueOPT.read_idx (SPSCQueueOPT.pop 4 demo_wrap_state) =
      if SPSCQueueOPT.read_idx demo_wrap_state =? 4 - 1 then 0
      else SPSCQueueOPT.read_idx demo_wrap_state + 1)).
Proof. split; [reflexivity|]. exact (C5_flag_pop_wraps 4 eq_refl demo_wrap_state). Defined.

Lemma C7_try_wrappers_witness :
  try_contract (SPSCQueue.ops 4) (put 5%nat) take (SPSCQueue.init 4) /\
  try_contract (SPSCQueueOPT.ops 4) (put 5%nat) take (SPSCQueueOPT.init 4).
Proof. exact (C7_try_wrappers 4 (put 5%nat) take _ _). Defined.

Lemma C8_blockPush_witness :
  blockPush_contract (SPSCQueue.ops 4) 3 (put 5%nat) (SPSCQueue.init 4) /\
  blockPush_contract (SPSCQueueOPT.ops 4) 3 (put 5%nat) (SPSCQueueOPT.init 4).
Proof. exact (C8_blockPush 4 3 (put 5%nat) _ _). Defined.

Lemma C10_flag_indices_in_bounds_witness :
  valid_cnt 4 = true /\
  exec (SPSCQueueOPT.ops 4) demo_prims (mksys (SPSCQueueOPT.init 4) None None)
    = Some demo_flag_sys /\
  (0 <= SPSCQueueOPT.write_idx (sq demo_flag_sys) < 4 /\
   0 <= SPSCQueueOPT.read_idx (sq demo_flag_sys) < 4 /\
   length (SPSCQueueOPT.blk (sq demo_flag_sys)) = Z.to_nat 4 /\
   is_Some (SPSCQueueOPT.blk (sq demo_flag_sys) !! Z.to_nat (SPSCQueueOPT.write_idx (sq demo_flag_sys))) /\
   is_Some (SPSCQueueOPT.blk (sq demo_flag_sys) !! Z.to_nat (SPSCQueueOPT.read_idx (sq demo_flag_sys)))).
Proof.
  assert (E : exec (SPSCQueueOPT.ops 4) demo_prims (mksys (SPSCQueueOPT.init 4) None None)
              = Some demo_flag_sys) by (vm_compute; reflexivity).
  split; [reflexivity|]. split; [exact E|].
  exact (C10_flag_indices_in_bounds 4 eq_refl demo_prims demo_flag_sys E).
Defined.

Lemma C9_failed_try_no_effect_witness :
  (forall si' tr, tryPush (SPSCQueue.ops (T := nat) 4) (put 5%nat) (SPSCQueue.init (T := nat) 4) = (false, si', tr) ->
     tr = [] /\ SPSCQueue.data si' = SPSCQueue.data (SPSCQueue.init (T := nat) 4) /\
     SPSCQueue.write_idx si' = SPSCQueue.write_idx (SPSCQueue.init (T := nat) 4) /\
     SPSCQueue.read_idx si' = SPSCQueue.read_idx (SPSCQueue.init (T := nat) 4)) /\
  (forall si' tr, tryPop (SPSCQueue.ops (T := nat) 4) take (SPSCQueue.init (T := nat) 4) = (false, si', tr) ->
     tr = [] /\ si' = SPSCQueue.init 4) /\
  (forall sf' tr, tryPush (SPSCQueueOPT.ops (T := nat) 4) (put 5%nat) (SPSCQueueOPT.init (T := nat) 4) = (false, sf', tr) ->
     tr = [] /\ SPSCQueueOPT.blk sf' = SPSCQueueOPT.blk (SPSCQueueOPT.init (T := nat) 4) /\
     SPSCQueueOPT.write_idx sf' = SPSCQueueOPT.write_idx (SPSCQueueOPT.init (T := nat) 4) /\
     SPSCQueueOPT.read_idx sf' = SPSCQueueOPT.read_idx (SPSCQueueOPT.init (T := nat) 4)) /\
  (forall sf' tr, tryPop (SPSCQueueOPT.ops (T := nat) 4) take (SPSCQueueOPT.init (T := nat) 4) = (false, sf', tr) ->
     tr = [] /\ sf' = SPSCQueueOPT.init 4).
Proof. exact (C9_failed_try_no_effect 4 (put 5%nat) take _ _). Defined.

(** ** Slot ownership under primitive interleavings *)
Ltac splits := repeat match goal with |- _ /\ _ => split end.

Section SysFacts.
  Context {T : Type} `{Inhabited T}.
  Variable CNT : Z.
  Hypothesis Hv : valid_cnt CNT = true.

Lemma index_excl_init : index_excl_inv CNT (mksys (SPSCQueue.init (T := T) CNT) None None).
  Proof.
    pose proof (cnt_range CNT Hv). exists 0, 0, 0. cbn.
    splits; try reflexivity; try lia; intros ? E; discriminate.
  Qed.

Lemma index_excl_step (c : prim T) (st st' : sys (SPSCQueue.t T)) :
    index_excl_inv CNT st -> step (SPSCQueue.ops CNT) c st = Some st' ->
    index_excl_inv CNT st'.
  Proof.
    intros (W & R & C & Hw & Hr & Hc & HCR & HWC & Hp & Hcp) Hs.
    pose proof (cnt_range CNT Hv) as Hcnt.
    destruct st as [[d w cc r] pp cp]; cbn in *; subst w r cc.
    destruct c; cbn in Hs.
    - unfold SPSCQueue.alloc, SPSCQueue.MASK in Hs; cbn in Hs.
      rewrite (index_w_sub_c CNT Hv W C) in Hs by lia.
      destruct (Z.eqb_spec (W - C) CNT).
      + rewrite (index_w_sub_c CNT Hv W R) in Hs by lia.
        destruct (Z.eqb_spec (W - R) CNT); injection Hs as <-;
          exists W, R, R; cbn; splits; try lia; try assumption.
        * intros ? E; discriminate.
        * intros p E. injection E as <-.
          rewrite (mask_mod CNT Hv), (u32_mod_cnt CNT Hv). split; [reflexivity|lia].
      + injection Hs as <-. exists W, R, C; cbn; splits; try lia; try assumption.
        intros p E. injection E as <-.
        rewrite (mask_mod CNT Hv), (u32_mod_cnt CNT Hv). split; [reflexivity|lia].
    - destruct pp; [|discriminate]. injection Hs as <-.
      exists W, R, C; cbn; splits; try reflexivity; try lia; assumption.
    - destruct pp as [p|]; [|discriminate]. injection Hs as <-.
      destruct (Hp p eq_refl) as [_ Hwc].
      exists (W + 1), R, C; cbn. rewrite u32_add1. splits; try lia.
      + intros ? E; discriminate.
      + intros c' E. destruct (Hcp c' E). split; [assumption|lia].
    - injection Hs as <-.
      exists W, R, C; cbn; splits; try lia; try assumption.
      unfold SPSCQueue.front, SPSCQueue.MASK; cbn.
      destruct (Z.eqb_spec (u32 R) (u32 W)) as [|NE]; [intros ? E; discriminate|].
      intros c' E. injection E as <-.
      rewrite (mask_mod CNT Hv), (u32_mod_cnt CNT Hv). split; [reflexivity|].
      destruct (Z.eq_dec R W); [subst; congruence|lia].
    - destruct cp; [|discriminate]. injection Hs as <-.
      exists W, R, C; cbn; splits; try reflexivity; try lia; assumption.
    - destruct cp as [c'|]; [|discriminate]. injection Hs as <-.
      destruct (Hcp c' eq_refl) as [_ Hrw].
      exists W, (R + 1), C; cbn. rewrite u32_add1. splits; try lia; try assumption.
      intros ? E; discriminate.
  Qed.

Lemma index_excl_exec (cs : list (prim T)) : forall st st',
    index_excl_inv CNT st -> exec (SPSCQueue.ops CNT) cs st = Some st' ->
    index_excl_inv CNT st'.
  Proof.
    induction cs as [|c cs IH]; intros st st' Hi He; cbn in He.
    - injection He as <-. exact Hi.
    - destruct (step _ c st) as [st1|] eqn:Hs; [|discriminate].
      exact (IH _ _ (index_excl_step c st st1 Hi Hs) He).
  Qed.

  (** An update of one block of the array, seen at any index. *)
Lemma blk_alter_lookup (g : SPSCQueueOPT.Block T -> SPSCQueueOPT.Block T)
      (l : list (SPSCQueueOPT.Block T)) (j k : nat) (bk : SPSCQueueOPT.Block T) :
    l !! k = Some bk ->
    alter g j l !! k = Some (if decide (j = k) then g bk else bk).
  Proof.
    intros Hk. destruct (decide (j = k)) as [->|Hne].
    - rewrite list_lookup_alter_eq, Hk. reflexivity.
    - rewrite list_lookup_alter_ne by exact Hne. exact Hk.
  Qed.

Lemma flag_sys_init :
    flag_sys_inv CNT (mksys (SPSCQueueOPT.init (T := T) CNT) None None) 0 0.
  Proof.
    pose proof (cnt_range CNT Hv).
    exists 0, 0. cbn. rewrite length_replicate, u32_small by lia.
    splits; try lia; try (rewrite Z.mod_0_l; lia); try (intros ? E; discriminate).
    intros i Hi. eexists. split; [apply lookup_replicate_2|].
    - apply to_nat_mod_lt. lia.
    - cbn. symmetry. apply Z.ltb_ge. lia.
  Qed.

Lemma flag_sys_step (c : prim T) (st st' : sys (SPSCQueueOPT.t T)) (a b : Z) :
    flag_sys_inv CNT st a b -> step (SPSCQueueOPT.ops CNT) c st = Some st' ->
    flag_sys_inv CNT st' (a + count_push [c]) (b + count_pop [c]).
  Proof.
    intros (W & R & Hw & Hr & HRW & Hab & Hf0 & Hf & Hl & Hb & Hp & Hcp) Hs.
    pose proof (cnt_range CNT Hv) as Hcnt.
    destruct st as [[bl w f r] pp cp]; cbn in *; subst w r.
    destruct c; cbn in Hs; cbn [count_push count_pop].
    - (* alloc *)
      unfold SPSCQueueOPT.alloc, SPSCQueueOPT.MASK in Hs; cbn in Hs.
      destruct (Z.eqb_spec f 0).
      + subst f. rewrite (flag_recompute CNT Hv W R) in Hs by lia.
        destruct (Z.eqb_spec (CNT - 1 - (W - R)) 0); injection Hs as <-;
          exists W, R; cbn; splits; try lia; try assumption.
        * intros ? E; discriminate.
        * intros p E. injection E as <-. split; [reflexivity|lia].
      + injection Hs as <-. exists W, R; cbn; splits; try lia; try assumption.
        intros p E. injection E as <-. split; [reflexivity|lia].
    - (* write through the producer's pointer *)
      destruct pp as [p|]; [|discriminate]. injection Hs as <-.
      exists W, R; cbn; rewrite ?length_alter; splits; try lia; try assumption.
      intros i Hi. destruct (Hb i Hi) as (bk & Hbk & Ha).
      eexists. split; [apply blk_alter_lookup, Hbk|].
      destruct (decide _); exact Ha.
    - (* push *)
      destruct pp as [p|]; [|discriminate]. injection Hs as <-.
      destruct (Hp p eq_refl) as [-> Hfp].
      exists (W + 1), R.
      unfold SPSCQueueOPT.push, SPSCQueueOPT.set, SPSCQueueOPT.set_avail,
        SPSCQueueOPT.MASK; cbn.
      rewrite (flag_next CNT Hv), u32_small by lia. rewrite !length_alter.
      splits; try lia; try assumption; try (intros ? E; discriminate).
      + intros i Hi. destruct (Hb i Hi) as (bk & Hbk & Ha).
        eexists. split; [apply blk_alter_lookup, Hbk|].
        destruct (decide (Z.to_nat (W mod CNT) = Z.to_nat ((R + Z.of_nat i) mod CNT))) as [E|NE].
        * cbn. apply Z2Nat.inj in E; try (apply Z.mod_pos_bound; lia).
          replace W with (R + (W - R)) in E at 1 by lia.
          apply mod_off_inj in E; lia.
        * rewrite Ha. destruct (Z.eq_dec (Z.of_nat i) (W - R)) as [Ei|Ni].
          { exfalso. apply NE. f_equal. f_equal. lia. }
          destruct (Z.ltb_spec (Z.of_nat i) (W - R)), (Z.ltb_spec (Z.of_nat i) (W + 1 - R));
            reflexivity || lia.
      + intros c' E. destruct (Hcp c' E). split; [assumption|lia].
    - (* front *)
      injection Hs as <-.
      exists W, R; cbn; splits; try lia; try assumption.
      unfold SPSCQueueOPT.front; cbn.
      destruct (Hb 0%nat ltac:(lia)) as (b0 & Hb0 & Ha0). rewrite Z.add_0_r in Hb0.
      change (Z.of_nat 0) with 0 in Ha0.
      rewrite (list_lookup_total_correct _ _ _ Hb0), Ha0.
      destruct (Z.ltb_spec 0 (W - R)); [|intros ? E; discriminate].
      intros c' E. injection E as <-. split; [reflexivity|lia].
    - (* read through the consumer's pointer *)
      destruct cp as [c'|]; [|discriminate]. injection Hs as <-.
      exists W, R; cbn; rewrite ?length_alter; splits; try lia; try assumption.
      intros i Hi. destruct (Hb i Hi) as (bk & Hbk & Ha).
      eexists. split; [apply blk_alter_lookup, Hbk|].
      destruct (decide _); exact Ha.
    - (* pop *)
      destruct cp as [c'|]; [|discriminate]. injection Hs as <-.
      destruct (Hcp c' eq_refl) as [-> Hrw].
      exists W, (R + 1).
      unfold SPSCQueueOPT.pop, SPSCQueueOPT.set, SPSCQueueOPT.set_avail,
        SPSCQueueOPT.MASK; cbn.
      rewrite (flag_next CNT Hv), !length_alter.
      splits; try lia; try assumption; try (intros ? E; discriminate).
      intros i Hi.
      destruct (Z.eq_dec (Z.of_nat i) (CNT - 1)) as [Ei|Ni].
      + destruct (Hb 0%nat ltac:(lia)) as (b0 & Hb0 & _). rewrite Z.add_0_r in Hb0.
        replace ((R + 1 + Z.of_nat i) mod CNT) with (R mod CNT)
          by (replace (R + 1 + Z.of_nat i) with (R + 1 * CNT) by lia;
              rewrite Z.mod_add by lia; reflexivity).
        eexists. split; [apply blk_alter_lookup, Hb0|].
        rewrite !decide_True by reflexivity. cbn.
        symmetry. apply Z.ltb_ge. lia.
      + destruct (Hb (S i) ltac:(lia)) as (bk & Hbk & Ha).
        replace (R + Z.of_nat (S i)) with (R + 1 + Z.of_nat i) in Hbk by lia.
        assert (Hne : Z.to_nat (R mod CNT) <> Z.to_nat ((R + 1 + Z.of_nat i) mod CNT)).
        { intros E. apply Z2Nat.inj in E; try (apply Z.mod_pos_bound; lia).
          replace R with (R + 0) in E at 1 by lia.
          replace (R + 1 + Z.of_nat i) with (R + (1 + Z.of_nat i)) in E by lia.
          apply mod_off_inj in E; lia. }
        eexists. split; [apply blk_alter_lookup, Hbk|].
        rewrite !decide_False by exact Hne. rewrite Ha.
        destruct (Z.ltb_spec (Z.of_nat (S i)) (W - R)),
          (Z.ltb_spec (Z.of_nat i) (W - (R + 1))); reflexivity || lia.
  Qed.

Lemma flag_sys_exec (cs : list (prim T)) : forall st st' a b,
    flag_sys_inv CNT st a b -> exec (SPSCQueueOPT.ops CNT) cs st = Some st' ->
    flag_sys_inv CNT st' (a + count_push cs) (b + count_pop cs).
  Proof.
    induction cs as [|c cs IH]; intros st st' a b Hi He; cbn in He.
    - injection He as <-. cbn. rewrite !Z.add_0_r. exact Hi.
    - destruct (step _ c st) as [st1|] eqn:Hs; [|discriminate].
      pose proof (flag_sys_step c st st1 a b Hi Hs) as Hi1.
      specialize (IH _ _ _ _ Hi1 He).
      replace (a + count_push (c :: cs)) with (a + count_push [c] + count_push cs)
        by (destruct c; cbn; lia).
      replace (b + count_pop (c :: cs)) with (b + count_pop [c] + count_pop cs)
        by (destruct c; cbn; lia).
      exact IH.
  Qed.

Lemma flag_sys_reach (cs : list (prim T)) (st : sys (SPSCQueueOPT.t T)) :
    exec (SPSCQueueOPT.ops CNT) cs (mksys (SPSCQueueOPT.init CNT) None None) = Some st ->
    flag_sys_inv CNT st (count_push cs) (count_pop cs).
  Proof.
    intros He. exact (flag_sys_exec cs _ _ 0 0 flag_sys_init He).
  Qed.

Lemma index_sys_reach (cs : list (prim T)) (st : sys (SPSCQueue.t T)) :
    exec (SPSCQueue.ops CNT) cs (mksys (SPSCQueue.init CNT) None None) = Some st ->
    index_sys_inv CNT st (count_push cs) (count_pop cs).
  Proof.
    intros He. pose proof (cnt_range CNT Hv).
    assert (Hinit : index_sys_inv (T := T) CNT (mksys (SPSCQueue.init CNT) None None) 0 0).
    { exists 0, 0, 0. cbn. splits; try reflexivity; try lia; intros X; congruence. }
    exact (index_sys_exec CNT Hv cs _ _ 0 0 Hinit He).
  Qed.

  (** Exact full and empty tests on an abstraction of [SPSCQueue]. *)
Lemma index_inv_exact (s : SPSCQueue.t T) (q : list T) :
    index_inv CNT s q ->
    Z.of_nat (length q) = u32 (SPSCQueue.write_idx s - SPSCQueue.read_idx s) /\
    (fst (SPSCQueue.alloc CNT s) = None <-> Z.of_nat (length q) = CNT) /\
    (SPSCQueue.front CNT s = None <-> q = []).
  Proof.
    intros Hi. pose proof (cnt_range CNT Hv) as Hcnt.
    pose proof Hi as (W & R & C & Hw & Hr & Hc & HCR & HWC & Hlen & Hd & Hq).
    split; [rewrite Hw, Hr, (index_w_sub_c CNT Hv W R) by lia; lia|].
    split; split.
    - intros Ha. destruct (SPSCQueue.alloc CNT s) as [p s1] eqn:E; cbn in Ha; subst p.
      exact (proj2 (index_alloc_none CNT Hv s s1 q Hi E)).
    - intros Hl. exact (index_alloc_full CNT Hv s q Hi Hl).
    - intros Hf. exact (index_front_none CNT Hv s q Hi Hf).
    - intros ->. cbn in Hlen. unfold SPSCQueue.front. rewrite Hw, Hr.
      replace R with W by lia. rewrite Z.eqb_refl. reflexivity.
  Qed.
End SysFacts.

(** ** [blockPush] on a full queue with no consumer *)
Section Spinning.
  Context {T Q : Type} (ops : queue_ops T Q) (inv : Q -> list T -> Prop) (K : nat).

  Hypothesis H_alloc_none : forall s q s1,
    inv s q -> op_alloc ops s = (None, s1) -> inv s1 q.
  Hypothesis H_full : forall s q,
    inv s q -> length q = K -> fst (op_alloc ops s) = None.

Lemma blockPush_full_spins (writer : T -> T) (fuel : nat) : forall s q,
    inv s q -> length q = K -> blockPush ops fuel writer s = None.
  Proof.
    induction fuel as [|fuel IH]; intros s q Hi Hk; [reflexivity|].
    cbn. unfold tryPush.
    pose proof (H_full s q Hi Hk) as Hn.
    destruct (op_alloc ops s) as [[p|] s1] eqn:Ha; cbn in Hn; [discriminate|].
    rewrite (IH s1 q (H_alloc_none s q s1 Hi Ha) Hk). reflexivity.
  Qed.
End Spinning.

(** ** Further properties of both queues *)

(** The [static_assert] of both classes, [CNT && !(CNT & (CNT - 1))] on a
    [uint32_t], accepts exactly the powers of two [2^0 .. 2^31]. *)
Theorem valid_cnt_iff_pow2 (CNT : Z) :
  valid_cnt CNT = true <-> exists k, 0 <= k <= 31 /\ CNT = 2 ^ k.
Proof.
  split; [apply valid_cnt_pow2|].
  intros (k & Hk & ->). unfold valid_cnt.
  assert (0 < 2 ^ k) by (apply Z.pow_pos_nonneg; lia).
  assert (2 ^ k < 2 ^ 32) by (apply Z.pow_lt_mono_r; lia).
  replace (2 ^ k - 1) with (Z.ones k) by (rewrite Z.ones_equiv; lia).
  rewrite Z.land_ones, Z.mod_same by lia.
  apply andb_true_iff. split; [apply andb_true_iff; split; apply Z.ltb_lt; lia|reflexivity].
Qed.

(** For a capacity accepted by the [static_assert], masking with [MASK =
    CNT - 1] computes the remainder modulo [CNT], in both classes. *)
Theorem mask_is_mod (CNT : Z) (Hv : valid_cnt CNT = true) (x : Z) :
  Z.land x (SPSCQueue.MASK CNT) = x mod CNT /\ Z.land x (SPSCQueueOPT.MASK CNT) = x mod CNT.
Proof. split; apply (mask_mod CNT Hv). Qed.

Section Extras.
  Context {T : Type} `{Inhabited T}.

(** [SPSCQueue]: along every interleaving of primitive operations from the
    initial state, the slot held by the producer (returned by its last
    [alloc]) is not the slot of any element pushed and not yet popped, and
    in particular differs from the slot held by the consumer. *)
Theorem index_slots_exclusive (CNT : Z) (Hv : valid_cnt CNT = true)
      (cs : list (prim T)) (st : sys (SPSCQueue.t T)) :
    exec (SPSCQueue.ops CNT) cs (mksys (SPSCQueue.init CNT) None None) = Some st ->
    (forall p, prod_ptr st = Some p ->
       forall i, 0 <= i < u32 (SPSCQueue.write_idx (sq st) - SPSCQueue.read_idx (sq st)) ->
       p <> Z.land (SPSCQueue.read_idx (sq st) + i) (SPSCQueue.MASK CNT)) /\
    (forall p c, prod_ptr st = Some p -> cons_ptr st = Some c -> p <> c).
Proof.
  intros He. pose proof (cnt_range CNT Hv) as Hcnt.
  destruct (index_excl_exec CNT Hv cs _ _ (index_excl_init CNT Hv) He)
    as (W & R & C & Hw & Hr & Hc & HCR & HWC & Hp & Hcp).
  split.
  - intros p Ep i Hi. destruct (Hp p Ep) as [-> Hwc].
    rewrite Hw, Hr, (index_w_sub_c CNT Hv W R) in Hi by lia.
    unfold SPSCQueue.MASK. rewrite Hr, (mask_mod CNT Hv).
    rewrite Zplus_mod, (u32_mod_cnt CNT Hv), <- Zplus_mod.
    intros E. replace W with (R + (W - R)) in E at 1 by lia.
    apply mod_off_inj in E; lia.
  - intros p c Ep Ec. destruct (Hp p Ep) as [-> Hwc]. destruct (Hcp c Ec) as [-> Hrw].
    intros E. replace W with (R + (W - R)) in E at 1 by lia.
    replace R with (R + 0) in E at 3 by lia.
    apply mod_off_inj in E; lia.
Qed.

(** [SPSCQueueOPT]: along every interleaving of primitive operations from
    the initial state, the block held by the producer has [avail = false]
    (it never holds an unread element), the block held by the consumer has
    [avail = true] (it holds a published element), and the two differ. *)
Theorem flag_slots_exclusive (CNT : Z) (Hv : valid_cnt CNT = true)
      (cs : list (prim T)) (st : sys (SPSCQueueOPT.t T)) :
    exec (SPSCQueueOPT.ops CNT) cs (mksys (SPSCQueueOPT.init CNT) None None) = Some st ->
    (forall p, prod_ptr st = Some p ->
       SPSCQueueOPT.avail (SPSCQueueOPT.blk (sq st) !!! Z.to_nat p) = false) /\
    (forall c, cons_ptr st = Some c ->
       SPSCQueueOPT.avail (SPSCQueueOPT.blk (sq st) !!! Z.to_nat c) = true) /\
    (forall p c, prod_ptr st = Some p -> cons_ptr st = Some c -> p <> c).
Proof.
  intros He. pose proof (cnt_range CNT Hv) as Hcnt.
  destruct (flag_sys_reach CNT Hv cs st He)
    as (W & R & Hw & Hr & HRW & Hab & Hf0 & Hf & Hl & Hb & Hp & Hcp).
  split; [|split].
  - intros p Ep. destruct (Hp p Ep) as [-> Hfp].
    destruct (Hb (Z.to_nat (W - R)) ltac:(lia)) as (bk & Hbk & Ha).
    rewrite Z2Nat.id in Hbk, Ha by lia.
    replace (R + (W - R)) with W in Hbk by lia.
    rewrite (list_lookup_total_correct _ _ _ Hbk), Ha. apply Z.ltb_irrefl.
  - intros c Ec. destruct (Hcp c Ec) as [-> Hrw].
    destruct (Hb 0%nat ltac:(lia)) as (bk & Hbk & Ha).
    rewrite Z.add_0_r in Hbk. change (Z.of_nat 0) with 0 in Ha.
    rewrite (list_lookup_total_correct _ _ _ Hbk), Ha. apply Z.ltb_lt. lia.
  - intros p c Ep Ec. destruct (Hp p Ep) as [-> Hfp]. destruct (Hcp c Ec) as [-> Hrw].
    intros E. replace W with (R + (W - R)) in E at 1 by lia.
    replace R with (R + 0) in E at 3 by lia.
    apply mod_off_inj in E; lia.
Qed.

(** [SPSCQueue]: in every state reached by an interleaving of primitive
    operations, [alloc] returns null exactly when [CNT] elements are pushed
    and not popped, and [front] returns null exactly when none is: the
    cached read index never makes the queue look full when it is not. *)
Theorem index_alloc_front_exact (CNT : Z) (Hv : valid_cnt CNT = true)
      (cs : list (prim T)) (st : sys (SPSCQueue.t T)) :
    exec (SPSCQueue.ops CNT) cs (mksys (SPSCQueue.init CNT) None None) = Some st ->
    (fst (SPSCQueue.alloc CNT (sq st)) = None <-> count_push cs - count_pop cs = CNT) /\
    (SPSCQueue.front CNT (sq st) = None <-> count_push cs = count_pop cs).
Proof.
  intros He. pose proof (cnt_range CNT Hv) as Hcnt.
  destruct (index_sys_reach CNT Hv cs st He)
    as (W & R & C & Hw & Hr & Hc & HCR & HWC & Hab & _ & _).
  destruct st as [[d w cc r] pp cp]; cbn in *; subst w r cc.
  split.
  - unfold SPSCQueue.alloc; cbn.
    rewrite (index_w_sub_c CNT Hv W C) by lia.
    destruct (Z.eqb_spec (W - C) CNT).
    + cbn. rewrite (index_w_sub_c CNT Hv W R) by lia.
      destruct (Z.eqb_spec (W - R) CNT); cbn; split; intros; try reflexivity; try discriminate; lia.
    + cbn. split; intros; [discriminate|lia].
  - unfold SPSCQueue.front; cbn.
    destruct (Z.eqb_spec (u32 R) (u32 W)) as [E|NE].
    + apply u32_inj in E; [|lia]. split; intros; [lia|reflexivity].
    + split; intros Hx; [discriminate|].
      exfalso. apply NE. f_equal. lia.
Qed.

(** [SPSCQueueOPT]: in every state reached by an interleaving of primitive
    operations, [alloc] returns null exactly when [CNT - 1] elements are
    pushed and not popped, and [front] returns null exactly when none is. *)
Theorem flag_alloc_front_exact (CNT : Z) (Hv : valid_cnt CNT = true)
      (cs : list (prim T)) (st : sys (SPSCQueueOPT.t T)) :
    exec (SPSCQueueOPT.ops CNT) cs (mksys (SPSCQueueOPT.init CNT) None None) = Some st ->
    (fst (SPSCQueueOPT.alloc CNT (sq st)) = None <-> count_push cs - count_pop cs = CNT - 1) /\
    (SPSCQueueOPT.front (sq st) = None <-> count_push cs = count_pop cs).
Proof.
  intros He. pose proof (cnt_range CNT Hv) as Hcnt.
  destruct (flag_sys_reach CNT Hv cs st He)
    as (W & R & Hw & Hr & HRW & Hab & Hf0 & Hf & Hl & Hb & _ & _).
  destruct st as [[bl w f r] pp cp]; cbn in *; subst w r.
  split.
  - unfold SPSCQueueOPT.alloc, SPSCQueueOPT.MASK; cbn.
    destruct (Z.eqb_spec f 0).
    + subst f. cbn. rewrite (flag_recompute CNT Hv W R) by lia.
      destruct (Z.eqb_spec (CNT - 1 - (W - R)) 0); cbn;
        split; intros; try reflexivity; try discriminate; lia.
    + cbn. split; intros; [discriminate|lia].
  - unfold SPSCQueueOPT.front; cbn.
    destruct (Hb 0%nat ltac:(lia)) as (b0 & Hb0 & Ha0). rewrite Z.add_0_r in Hb0.
    change (Z.of_nat 0) with 0 in Ha0.
    rewrite (list_lookup_total_correct _ _ _ Hb0), Ha0.
    destruct (Z.ltb_spec 0 (W - R)); split; intros; try reflexivity; try discriminate; lia.
Qed.

(** [SPSCQueue] started empty with its three 32-bit counters at any value
    [x] (for instance just below [2^32], so that they wrap around): for any
    interleaving of [tryPush] and [tryPop], the reader callbacks see a
    prefix of the written values in order, the rest [q'] is what the queue
    holds, [(write_idx - read_idx) mod 2^32] is its length, [alloc] returns
    null exactly when it holds [CNT] elements and [front] exactly when it is
    empty. *)
Theorem index_wrapped_counters_fifo (CNT : Z) (Hv : valid_cnt CNT = true)
      (d : list T) (x : Z) (os : list (op T))
      (Hd : length d = Z.to_nat CNT) (Hx : 0 <= x < 2 ^ 32) :
    let '(s', tr) := run (SPSCQueue.ops CNT) os (SPSCQueue.mk d x x x) in
    exists q', written tr = read_vals tr ++ q' /\
      Z.of_nat (length q') = u32 (SPSCQueue.write_idx s' - SPSCQueue.read_idx s') /\
      (fst (SPSCQueue.alloc CNT s') = None <-> Z.of_nat (length q') = CNT) /\
      (SPSCQueue.front CNT s' = None <-> q' = []).
Proof.
  pose proof (cnt_range CNT Hv) as Hcnt.
  assert (Hi0 : index_inv CNT (SPSCQueue.mk d x x x) []).
  { exists x, x, x. cbn. rewrite !u32_small by lia.
    splits; try reflexivity; try lia; try assumption.
    intros i y Hy. rewrite lookup_nil in Hy. discriminate. }
  pose proof (run_refines (SPSCQueue.ops (T := T) CNT) (index_inv CNT)) as Rf.
  specialize (Rf ltac:(intros s q s1 Hi Ha; eapply index_alloc_none; eauto)).
  specialize (Rf ltac:(intros s q p s1 y Hi Ha; eapply index_alloc_some; eauto)).
  specialize (Rf ltac:(intros s q p y Hi Hf; eapply index_front_some; eauto)).
  specialize (Rf os _ [] Hi0).
  destruct (run _ os _) as [s' tr]. destruct Rf as (q' & Hi' & E).
  exists q'. split; [exact E|]. exact (index_inv_exact CNT Hv s' q' Hi').
Qed.

(** [SPSCQueue]: along every interleaving of primitive operations from the
    initial state, the producer's cached read index never runs ahead of
    [read_idx]: [(read_idx - read_idx_cach) mod 2^32] is at most
    [(write_idx - read_idx_cach) mod 2^32], which is at most [CNT]; so the
    free space the producer deduces from its cache is never more than the
    real one. *)
Theorem index_cache_lags_read_idx (CNT : Z) (Hv : valid_cnt CNT = true)
      (cs : list (prim T)) (st : sys (SPSCQueue.t T)) :
    exec (SPSCQueue.ops CNT) cs (mksys (SPSCQueue.init CNT) None None) = Some st ->
    u32 (SPSCQueue.read_idx (sq st) - SPSCQueue.read_idx_cach (sq st))
      <= u32 (SPSCQueue.write_idx (sq st) - SPSCQueue.read_idx_cach (sq st)) <= CNT.
Proof.
  intros He. pose proof (cnt_range CNT Hv) as Hcnt.
  destruct (index_sys_reach CNT Hv cs st He)
    as (W & R & C & Hw & Hr & Hc & HCR & HWC & _ & _ & _).
  rewrite Hw, Hr, Hc, (index_w_sub_c CNT Hv R C), (index_w_sub_c CNT Hv W C) by lia.
  lia.
Qed.

(** [SPSCQueueOPT]: along every interleaving of primitive operations from
    the initial state, the number of elements pushed and not popped lies in
    [[0, CNT - 1]] and equals [(write_idx - read_idx) mod CNT]. *)
Theorem flag_occupancy (CNT : Z) (Hv : valid_cnt CNT = true)
      (cs : list (prim T)) (st : sys (SPSCQueueOPT.t T)) :
    exec (SPSCQueueOPT.ops CNT) cs (mksys (SPSCQueueOPT.init CNT) None None) = Some st ->
    0 <= count_push cs - count_pop cs <= CNT - 1 /\
    (SPSCQueueOPT.write_idx (sq st) - SPSCQueueOPT.read_idx (sq st)) mod CNT
      = count_push cs - count_pop cs.
Proof.
  intros He. pose proof (cnt_range CNT Hv) as Hcnt.
  destruct (flag_sys_reach CNT Hv cs st He)
    as (W & R & Hw & Hr & HRW & Hab & Hf0 & Hf & _ & _ & _ & _).
  split; [lia|].
  rewrite Hw, Hr, <- Zminus_mod, Z.mod_small by lia. exact Hab.
Qed.

(** [SPSCQueueOPT]: along every interleaving of primitive operations from
    the initial state, [free_write_cnt] never exceeds the real free space
    [CNT - 1 - (pushed - popped)] and never goes below zero; when it is
    zero, the recomputation in [alloc] sets it to exactly that free space. *)
Theorem flag_free_cnt_bounds (CNT : Z) (Hv : valid_cnt CNT = true)
      (cs : list (prim T)) (st : sys (SPSCQueueOPT.t T)) :
    exec (SPSCQueueOPT.ops CNT) cs (mksys (SPSCQueueOPT.init CNT) None None) = Some st ->
    0 <= SPSCQueueOPT.free_write_cnt (sq st) <= CNT - 1 - (count_push cs - count_pop cs) /\
    (SPSCQueueOPT.free_write_cnt (sq st) = 0 ->
     SPSCQueueOPT.free_write_cnt (snd (SPSCQueueOPT.alloc CNT (sq st)))
       = CNT - 1 - (count_push cs - count_pop cs)).
Proof.
  intros He. pose proof (cnt_range CNT Hv) as Hcnt.
  destruct (flag_sys_reach CNT Hv cs st He)
    as (W & R & Hw & Hr & HRW & Hab & Hf0 & Hf & _ & _ & _ & _).
  split; [lia|].
  destruct st as [[bl w f r] pp cp]; cbn in *; subst w r.
  intros ->. unfold SPSCQueueOPT.alloc, SPSCQueueOPT.MASK; cbn.
  rewrite (flag_recompute CNT Hv W R) by lia.
  destruct (Z.eqb _ 0); cbn; lia.
Qed.

(** [SPSCQueueOPT]: along every interleaving of primitive operations from
    the initial state, block [j] has its [avail] flag set exactly when it
    lies among the [pushed - popped] blocks that follow [read_idx]
    cyclically, i.e. when [(j - read_idx) mod CNT < pushed - popped]. *)
Theorem flag_avail_marks_occupied (CNT : Z) (Hv : valid_cnt CNT = true)
      (cs : list (prim T)) (st : sys (SPSCQueueOPT.t T)) :
    exec (SPSCQueueOPT.ops CNT) cs (mksys (SPSCQueueOPT.init CNT) None None) = Some st ->
    forall j, 0 <= j < CNT ->
      (SPSCQueueOPT.avail (SPSCQueueOPT.blk (sq st) !!! Z.to_nat j) = true <->
       (j - SPSCQueueOPT.read_idx (sq st)) mod CNT < count_push cs - count_pop cs).
Proof.
  intros He j Hj. pose proof (cnt_range CNT Hv) as Hcnt.
  destruct (flag_sys_reach CNT Hv cs st He)
    as (W & R & Hw & Hr & HRW & Hab & Hf0 & Hf & Hl & Hb & _ & _).
  rewrite Hr, Zminus_mod_idemp_r.
  pose proof (Z.mod_pos_bound (j - R) CNT ltac:(lia)) as Hm.
  destruct (Hb (Z.to_nat ((j - R) mod CNT)) ltac:(lia)) as (bk & Hbk & Ha).
  rewrite Z2Nat.id in Hbk, Ha by lia.
  rewrite Zplus_mod_idemp_r in Hbk. replace (R + (j - R)) with j in Hbk by lia.
  rewrite Z.mod_small in Hbk by lia.
  rewrite (list_lookup_total_correct _ _ _ Hbk), Ha, Z.ltb_lt. lia.
Qed.

(** Both classes: once a run of [tryPush]/[tryPop] from the initial state
    has filled the queue ([CNT] elements for [SPSCQueue], [CNT - 1] for
    [SPSCQueueOPT]) and no consumer runs, [blockPush] never returns: every
    bounded number of iterations of its loop still spins. *)
Theorem blockPush_spins_when_full (CNT : Z) (Hv : valid_cnt CNT = true)
      (os : list (op T)) (fuel : nat) (writer : T -> T) :
    (length (written (snd (run (SPSCQueue.ops CNT) os (SPSCQueue.init CNT))))
       = (length (read_vals (snd (run (SPSCQueue.ops CNT) os (SPSCQueue.init CNT))))
          + Z.to_nat CNT)%nat ->
     blockPush (SPSCQueue.ops CNT) fuel writer
       (fst (run (SPSCQueue.ops CNT) os (SPSCQueue.init CNT))) = None) /\
    (length (written (snd (run (SPSCQueueOPT.ops CNT) os (SPSCQueueOPT.init CNT))))
       = (length (read_vals (snd (run (SPSCQueueOPT.ops CNT) os (SPSCQueueOPT.init CNT))))
          + Z.to_nat (CNT - 1))%nat ->
     blockPush (SPSCQueueOPT.ops CNT) fuel writer
       (fst (run (SPSCQueueOPT.ops CNT) os (SPSCQueueOPT.init CNT))) = None).
Proof.
  pose proof (cnt_range CNT Hv) as Hcnt. split.
  - pose proof (index_run_fifo CNT Hv os) as Rf.
    destruct (run _ os _) as [s' tr]. destruct Rf as (q' & Hi & E). cbn.
    intros Hlen. rewrite E, length_app in Hlen.
    apply (blockPush_full_spins (SPSCQueue.ops CNT) (index_inv CNT) (Z.to_nat CNT))
      with (q := q'); [| |exact Hi|lia].
    + intros s q s1 Hs Ha. exact (proj1 (index_alloc_none CNT Hv s s1 q Hs Ha)).
    + intros s q Hs Hq. apply (index_alloc_full CNT Hv s q Hs). lia.
  - pose proof (flag_run_fifo CNT Hv os) as Rf.
    destruct (run _ os _) as [s' tr]. destruct Rf as (q' & Hi & E). cbn.
    intros Hlen. rewrite E, length_app in Hlen.
    apply (blockPush_full_spins (SPSCQueueOPT.ops CNT) (flag_inv CNT) (Z.to_nat (CNT - 1)))
      with (q := q'); [| |exact Hi|lia].
    + intros s q s1 Hs Ha. exact (proj1 (flag_alloc_none CNT Hv s s1 q Hs Ha)).
    + intros s q Hs Hq. apply (flag_alloc_full CNT Hv s q Hs). lia.
Qed.
End Extras.

(** ** Instances of the further properties at concrete inputs *)

Lemma mask_is_mod_witness :
  valid_cnt 8 = true /\
  (Z.land 13 (SPSCQueue.MASK 8) = 13 mod 8 /\ Z.land 13 (SPSCQueueOPT.MASK 8) = 13 mod 8).
Proof. split; [reflexivity|]. exact (mask_is_mod 8 eq_refl 13). Defined.

Lemma index_slots_exclusive_witness :
  valid_cnt 4 = true /\
  exec (SPSCQueue.ops 4) demo_both_prims (mksys (SPSCQueue.init 4) None None)
    = Some demo_both_index_sys /\
  ((forall p, prod_ptr demo_both_index_sys = Some p ->
      forall i, 0 <= i < u32 (SPSCQueue.write_idx (sq demo_both_index_sys)
                              - SPSCQueue.read_idx (sq demo_both_index_sys)) ->
      p <> Z.land (SPSCQueue.read_idx (sq demo_both_index_sys) + i) (SPSCQueue.MASK 4)) /\
   (forall p c, prod_ptr demo_both_index_sys = Some p ->
      cons_ptr demo_both_index_sys = Some c -> p <> c)).
Proof.
  assert (E : exec (SPSCQueue.ops 4) demo_both_prims (mksys (SPSCQueue.init 4) None None)
              = Some demo_both_index_sys) by (vm_compute; reflexivity).
  split; [reflexivity|]. split; [exact E|].
  exact (index_slots_exclusive 4 eq_refl demo_both_prims demo_both_index_sys E).
Defined.

Lemma flag_slots_exclusive_witness :
  valid_cnt 4 = true /\
  exec (SPSCQueueOPT.ops 4) demo_both_prims (mksys (SPSCQueueOPT.init 4) None None)
    = Some demo_both_flag_sys /\
  ((forall p, prod_ptr demo_both_flag_sys = Some p ->
      SPSCQueueOPT.avail (SPSCQueueOPT.blk (sq demo_both_flag_sys) !!! Z.to_nat p) = false) /\
   (forall c, cons_ptr demo_both_flag_sys = Some c ->
      SPSCQueueOPT.avail (SPSCQueueOPT.blk (sq demo_both_flag_sys) !!! Z.to_nat c) = true) /\
   (forall p c, prod_ptr demo_both_flag_sys = Some p ->
      cons_ptr demo_both_flag_sys = Some c -> p <> c)).
Proof.
  assert (E : exec (SPSCQueueOPT.ops 4) demo_both_prims (mksys (SPSCQueueOPT.init 4) None None)
              = Some demo_both_flag_sys) by (vm_compute; reflexivity).
  split; [reflexivity|]. split; [exact E|].
  exact (flag_slots_exclusive 4 eq_refl demo_both_prims demo_both_flag_sys E).
Defined.

Lemma index_alloc_front_exact_witness :
  valid_cnt 4 = true /\
  exec (SPSCQueue.ops 4) demo_both_prims (mksys (SPSCQueue.init 4) None None)
    = Some demo_both_index_sys /\
  ((fst (SPSCQueue.alloc 4 (sq demo_both_index_sys)) = None <->
      count_push demo_both_prims - count_pop demo_both_prims = 4) /\
   (SPSCQueue.front 4 (sq demo_both_index_sys) = None <->
      count_push demo_both_prims = count_pop demo_both_prims)).
Proof.
  assert (E : exec (SPSCQueue.ops 4) demo_both_prims (mksys (SPSCQueue.init 4) None None)
              = Some demo_both_index_sys) by (vm_compute; reflexivity).
  split; [reflexivity|]. split; [exact E|].
  exact (index_alloc_front_exact 4 eq_refl demo_both_prims demo_both_index_sys E).
Defined.

Lemma flag_alloc_front_exact_witness :
  valid_cnt 4 = true /\
  exec (SPSCQueueOPT.ops 4) demo_refresh_prims (mksys (SPSCQueueOPT.init 4) None None)
    = Some demo_refresh_sys /\
  ((fst (SPSCQueueOPT.alloc 4 (sq demo_refresh_sys)) = None <->
      count_push demo_refresh_prims - count_pop demo_refresh_prims = 4 - 1) /\
   (SPSCQueueOPT.front (sq demo_refresh_sys) = None <->
      count_push demo_refresh_prims = count_pop demo_refresh_prims)).
Proof.
  assert (E : exec (SPSCQueueOPT.ops 4) demo_refresh_prims (mksys (SPSCQueueOPT.init 4) None None)
              = Some demo_refresh_sys) by (vm_compute; reflexivity).
  split; [reflexivity|]. split; [exact E|].
  exact (flag_alloc_front_exact 4 eq_refl demo_refresh_prims demo_refresh_sys E).
Defined.

Lemma index_wrapped_counters_fifo_witness :
  valid_cnt 4 = true /\ length demo_top_data = Z.to_nat 4 /\ 0 <= 2 ^ 32 - 1 < 2 ^ 32 /\
  (let '(s', tr) := run (SPSCQueue.ops 4) demo_ops (SPSCQueue.mk demo_top_data (2 ^ 32 - 1) (2 ^ 32 - 1) (2 ^ 32 - 1)) in
   exists q', written tr = read_vals tr ++ q' /\
     Z.of_nat (length q') = u32 (SPSCQueue.write_idx s' - SPSCQueue.read_idx s') /\
     (fst (SPSCQueue.alloc 4 s') = None <-> Z.of_nat (length q') = 4) /\
     (SPSCQueue.front 4 s' = None <-> q' = [])).
Proof.
  split; [reflexivity|]. split; [reflexivity|]. split; [lia|].
  exact (index_wrapped_counters_fifo 4 eq_refl demo_top_data (2 ^ 32 - 1) demo_ops
           eq_refl ltac:(lia)).
Defined.

Lemma index_cache_lags_read_idx_witness :
  valid_cnt 4 = true /\
  exec (SPSCQueue.ops 4) demo_prims (mksys (SPSCQueue.init 4) None None) = Some demo_index_sys /\
  u32 (SPSCQueue.read_idx (sq demo_index_sys) - SPSCQueue.read_idx_cach (sq demo_index_sys))
    <= u32 (SPSCQueue.write_idx (sq demo_index_sys) - SPSCQueue.read_idx_cach (sq demo_index_sys))
    <= 4.
Proof.
  assert (E : exec (SPSCQueue.ops 4) demo_prims (mksys (SPSCQueue.init 4) None None)
              = Some demo_index_sys) by (vm_compute; reflexivity).
  split; [reflexivity|]. split; [exact E|].
  exact (index_cache_lags_read_idx 4 eq_refl demo_prims demo_index_sys E).
Defined.

Lemma flag_occupancy_witness :
  valid_cnt 4 = true /\
  exec (SPSCQueueOPT.ops 4) demo_both_prims (mksys (SPSCQueueOPT.init 4) None None)
    = Some demo_both_flag_sys /\
  (0 <= count_push demo_both_prims - count_pop demo_both_prims <= 4 - 1 /\
   (SPSCQueueOPT.write_idx (sq demo_both_flag_sys) - SPSCQueueOPT.read_idx (sq demo_both_flag_sys))
     mod 4 = count_push demo_both_prims - count_pop demo_both_prims).
Proof.
  assert (E : exec (SPSCQueueOPT.ops 4) demo_both_prims (mksys (SPSCQueueOPT.init 4) None None)
              = Some demo_both_flag_sys) by (vm_compute; reflexivity).
  split; [reflexivity|]. split; [exact E|].
  exact (flag_occupancy 4 eq_refl demo_both_prims demo_both_flag_sys E).
Defined.

Lemma flag_free_cnt_bounds_witness :
  valid_cnt 4 = true /\
  exec (SPSCQueueOPT.ops 4) demo_refresh_prims (mksys (SPSCQueueOPT.init 4) None None)
    = Some demo_refresh_sys /\
  SPSCQueueOPT.free_write_cnt (sq demo_refresh_sys) = 0 /\
  (0 <= SPSCQueueOPT.free_write_cnt (sq demo_refresh_sys)
      <= 4 - 1 - (count_push demo_refresh_prims - count_pop demo_refresh_prims) /\
   SPSCQueueOPT.free_write_cnt (snd (SPSCQueueOPT.alloc 4 (sq demo_refresh_sys)))
     = 4 - 1 - (count_push demo_refresh_prims - count_pop demo_refresh_prims)).
Proof.
  assert (E : exec (SPSCQueueOPT.ops 4) demo_refresh_prims (mksys (SPSCQueueOPT.init 4) None None)
              = Some demo_refresh_sys) by (vm_compute; reflexivity).
  assert (F : SPSCQueueOPT.free_write_cnt (sq demo_refresh_sys) = 0) by reflexivity.
  split; [reflexivity|]. split; [exact E|]. split; [exact F|].
  destruct (flag_free_cnt_bounds 4 eq_refl demo_refresh_prims demo_refresh_sys E) as [B R].
  exact (conj B (R F)).
Defined.

Lemma flag_avail_marks_occupied_witness :
  valid_cnt 4 = true /\
  exec (SPSCQueueOPT.ops 4) demo_refresh_prims (mksys (SPSCQueueOPT.init 4) None None)
    = Some demo_refresh_sys /\
  0 <= 2 < 4 /\
  (SPSCQueueOPT.avail (SPSCQueueOPT.blk (sq demo_refresh_sys) !!! Z.to_nat 2) = true <->
   (2 - SPSCQueueOPT.read_idx (sq demo_refresh_sys)) mod 4
     < count_push demo_refresh_prims - count_pop demo_refresh_prims).
Proof.
  assert (E : exec (SPSCQueueOPT.ops 4) demo_refresh_prims (mksys (SPSCQueueOPT.init 4) None None)
              = Some demo_refresh_sys) by (vm_compute; reflexivity).
  split; [reflexivity|]. split; [exact E|]. split; [lia|].
  exact (flag_avail_marks_occupied 4 eq_refl demo_refresh_prims demo_refresh_sys E 2 ltac:(lia)).
Defined.

Lemma blockPush_spins_when_full_witness :
  valid_cnt 4 = true /\
  (length (written (snd (run (SPSCQueue.ops 4) demo_fill_ops (SPSCQueue.init 4))))
     = (length (read_vals (snd (run (SPSCQueue.ops 4) demo_fill_ops (SPSCQueue.init 4))))
        + Z.to_nat 4)%nat /\
   blockPush (SPSCQueue.ops 4) 5 (put 9%nat)
     (fst (run (SPSCQueue.ops 4) demo_fill_ops (SPSCQueue.init 4))) = None) /\
  (length (written (snd (run (SPSCQueueOPT.ops 4) demo_fill_ops (SPSCQueueOPT.init 4))))
     = (length (read_vals (snd (run (SPSCQueueOPT.ops 4) demo_fill_ops (SPSCQueueOPT.init 4))))
        + Z.to_nat (4 - 1))%nat /\
   blockPush (SPSCQueueOPT.ops 4) 5 (put 9%nat)
     (fst (run (SPSCQueueOPT.ops 4) demo_fill_ops (SPSCQueueOPT.init 4))) = None).
Proof.
  assert (L1 : length (written (snd (run (SPSCQueue.ops 4) demo_fill_ops (SPSCQueue.init 4))))
     = (length (read_vals (snd (run (SPSCQueue.ops 4) demo_fill_ops (SPSCQueue.init 4))))
        + Z.to_nat 4)%nat) by (vm_compute; reflexivity).
  assert (L2 : length (written (snd (run (SPSCQueueOPT.ops 4) demo_fill_ops (SPSCQueueOPT.init 4))))
     = (length (read_vals (snd (run (SPSCQueueOPT.ops 4) demo_fill_ops (SPSCQueueOPT.init 4))))
        + Z.to_nat (4 - 1))%nat) by (vm_compute; reflexivity).
  destruct (blockPush_spins_when_full 4 eq_refl demo_fill_ops 5 (put 9%nat)) as [B1 B2].
  split; [reflexivity|]. split; [exact (conj L1 (B1 L1))|exact (conj L2 (B2 L2))].
Defined.
